(** * SecretScanner: the scan engine of [scan/process_image.go] and the
      writers of [jobs/scan.go], embedded as Rocq functions.

    Go values are modelled as follows.
    - [string] and [[]byte] are byte sequences: [list ascii].
    - [uint] is a 64-bit unsigned integer: [N] with the wrap-around of
      [+] and [*] written out ([uadd], [umul]).
    - [error] is [option error]: [None] is Go's [nil].
    - [map[uint]uint] is [gmap N N]; a Go map is a reference, so the one
      map a walk allocates is threaded through every call that receives it.
    - a channel is the sequence of values sent on it before it is closed. *)

From Stdlib Require Import Ascii String NArith Lia.
From stdpp Require Import base option list gmap.

Open Scope N_scope.
Open Scope list_scope.

(** ** Go byte strings *)

Module GoStrings.

(** A string literal as a Go string. *)
Definition str (s : string) : list ascii := list_ascii_of_string s.

Definition eqb (a b : list ascii) : bool := bool_decide (a = b).

(** [strings.HasPrefix]: [len(s) >= len(prefix) && s[:len(prefix)] == prefix]. *)
Definition HasPrefix (s prefix : list ascii) : bool :=
  (length prefix <=? length s)%nat && eqb (take (length prefix) s) prefix.

(** [strings.HasSuffix]:
    [len(s) >= len(suffix) && s[len(s)-len(suffix):] == suffix]. *)
Definition HasSuffix (s suffix : list ascii) : bool :=
  (length suffix <=? length s)%nat
  && eqb (drop (length s - length suffix)%nat s) suffix.

(** [strings.TrimPrefix]. *)
Definition TrimPrefix (s prefix : list ascii) : list ascii :=
  if HasPrefix s prefix then drop (length prefix) s else s.

(** [strings.TrimSuffix]. *)
Definition TrimSuffix (s suffix : list ascii) : list ascii :=
  if HasSuffix s suffix then take (length s - length suffix)%nat s else s.

(** [strings.Index]: the byte offset of the first occurrence of [substr]. *)
Fixpoint Index (s substr : list ascii) : option nat :=
  if HasPrefix s substr then Some 0%nat
  else match s with
       | [] => None
       | _ :: t => S <$> Index t substr
       end.

(** [strings.Contains]. *)
Definition Contains (s substr : list ascii) : bool :=
  bool_decide (is_Some (Index s substr)).

(** [strings.Replace(s, old, new, 1)]: only the first occurrence of [old]
    is replaced.  An empty [old] matches at offset 0. *)
Definition Replace1 (s old new : list ascii) : list ascii :=
  if eqb old new then s
  else match Index s old with
       | None => s
       | Some j => take j s ++ new ++ drop (j + length old)%nat s
       end.

(** [strings.Split(s, sep)] for a one-byte separator: [acc] is the field
    being read. *)
Fixpoint split_from (sep : ascii) (acc s : list ascii) : list (list ascii) :=
  match s with
  | [] => [acc]
  | c :: t =>
      if bool_decide (c = sep) then acc :: split_from sep [] t
      else split_from sep (acc ++ [c]) t
  end.

Definition Split (s : list ascii) (sep : ascii) : list (list ascii) :=
  split_from sep [] s.

(** [strings.Join(elems, sep)]. *)
Fixpoint Join (elems : list (list ascii)) (sep : list ascii) : list ascii :=
  match elems with
  | [] => []
  | [e] => e
  | e :: rest => e ++ sep ++ Join rest sep
  end.

End GoStrings.

Import GoStrings.

(** ** Errors *)

Inductive error : Type :=
| maxSecretsExceeded            (* errors.New("number of secrets exceeded max-secrets") *)
| SkipDir                       (* filepath.SkipDir *)
| ErrCheckpoint                 (* what scanCtx.Checkpoint returns once stopped *)
| ErrOS (msg : string)          (* os, tar, gzip and json errors *)
| ErrBytesWritten (wrote want : N).   (* "unexpected bytes written" *)

Global Instance error_eq_dec : EqDecision error.
Proof. solve_decision. Defined.

(** ** The image manifest (process_image.go, [manifestItem]) *)

Record manifestItem : Type := {
  Config   : list ascii;
  RepoTags : list (list ascii);
  Layers   : list (list ascii);
  LayerIds : list (list ascii)
}.

(** Go's zero value [manifestItem{}]. *)
Definition manifestItem_zero : manifestItem :=
  {| Config := []; RepoTags := []; Layers := []; LayerIds := [] |}.

(** What [extractDetailsFromManifest] finds at [path + "/manifest.json"]:
    the file cannot be opened, it does not decode as a JSON array of
    manifest items, or it decodes to [manifest]. *)
Inductive manifestFile : Type :=
| OpenFails (e : error)
| DecodeFails (e : error)
| Decodes (manifest : list manifestItem).

(** The loop of [extractDetailsFromManifest] over [manifest[0].Layers]. *)
Definition trimLayerId (layer : list ascii) : list ascii :=
  let trimmedLayerId := TrimSuffix layer (str "/layer.tar") in
  (* manifests saved by some versions of skopeo has .tar extentions *)
  TrimSuffix trimmedLayerId (str ".tar").

Definition deriveLayerIds (layers : list (list ascii)) : list (list ascii) :=
  fold_left (fun layerIds layer => layerIds ++ [trimLayerId layer]) layers [].

Definition extractDetailsFromManifest (mf : manifestFile)
  : manifestItem * option error :=
  match mf with
  | OpenFails e => (manifestItem_zero, Some e)
  | DecodeFails e => (manifestItem_zero, Some e)
  | Decodes manifest =>
      (* here [err] is the nil that Decode returned *)
      let err : option error := None in
      if negb (length manifest =? 1)%nat then (manifestItem_zero, err)
      else
        match manifest with
        | m0 :: _ =>
            ({| Config := Config m0; RepoTags := RepoTags m0;
                Layers := Layers m0;
                LayerIds := deriveLayerIds (Layers m0) |}, None)
        | [] => (manifestItem_zero, None)
        end
  end.

(** ** [ImageScan] and [extractImage] (process_image.go) *)

Module Image.

Record ImageScan : Type := {
  imageName : list ascii;
  imageId : list ascii;
  tempDir : list ascii;
  imageManifest : manifestItem;
  numSecrets : N
}.

(** [extractImage(saveImage)].  [saveErr] is the result of
    [saveImageData], [untarErr] that of [extractTarFile] on the saved
    archive, [mf] the manifest file found afterwards. *)
Definition extractImage (imageScan : ImageScan) (saveImage : bool)
    (saveErr untarErr : option error) (mf : manifestFile)
  : ImageScan * option error :=
  let imageScan :=
    {| imageName := imageName imageScan; imageId := imageId imageScan;
       tempDir := tempDir imageScan;
       imageManifest := imageManifest imageScan; numSecrets := 0 |} in
  match (if saveImage then saveErr else None) with
  | Some err => (imageScan, Some err)
  | None =>
      match untarErr with
      | Some err => (imageScan, Some err)
      | None =>
          match extractDetailsFromManifest mf with
          | (_, Some err) => (imageScan, Some err)
          | (imageManifest, None) =>
              (* reading image id from imanifest file json path and
                 tripping off extension *)
              ({| imageName := imageName imageScan;
                  imageId := TrimSuffix (Config imageManifest) (str ".json");
                  tempDir := tempDir imageScan;
                  imageManifest := imageManifest;
                  numSecrets := 0 |}, None)
          end
      end
  end.

End Image.

(** ** Go's [path/filepath] on Unix *)

Module Filepath.

Definition Separator : ascii := "/"%char.

(** [filepath.IsAbs]. *)
Definition IsAbs (path : list ascii) : bool := HasPrefix path [Separator].

(** One path element of [filepath.Clean].  [out] holds the elements kept
    so far, the last one first. *)
Definition clean_elem (rooted : bool) (out : list (list ascii))
    (elem : list ascii) : list (list ascii) :=
  if eqb elem [] || eqb elem (str ".") then out
  else if eqb elem (str "..") then
    match out with
    | top :: below =>
        if eqb top (str "..") then elem :: out   (* cannot backtrack *)
        else below                               (* remove the element before *)
    | [] => if rooted then [] else [elem]
    end
  else elem :: out.

(** [filepath.Clean]: no empty element, no [.] element, no inner [..], no
    [..] at the start of a rooted path; the empty path becomes [.]. *)
Definition Clean (path : list ascii) : list ascii :=
  let rooted := IsAbs path in
  let out := rev (fold_left (clean_elem rooted) (Split path Separator) []) in
  if rooted then Separator :: Join out [Separator]
  else match out with
       | [] => str "."
       | _ => Join out [Separator]
       end.

(** [filepath.Join(a, b)]: the non-empty elements are joined with a
    separator and the result is cleaned; all elements empty gives [""]. *)
Definition Join2 (a b : list ascii) : list ascii :=
  match a, b with
  | [], [] => []
  | [], _ => Clean b
  | _, [] => Clean a
  | _, _ => Clean (a ++ Separator :: b)
  end.

(** [filepath.Rel("/", targpath)] for a rooted [targpath]: both paths are
    cleaned; equal paths give [.]; otherwise the common first element (the
    empty one before the leading separator) is dropped.  With base ["/"]
    and a rooted target the function has no error case. *)
Definition Rel_root (targpath : list ascii) : list ascii + error :=
  let targ := Clean targpath in
  if eqb targ [Separator] then inl (str ".")
  else inl (drop 1 targ).

(** [filepath.Abs]: a rooted path is cleaned, any other path is joined to
    the working directory, whose lookup can fail. *)
Definition Abs (getwd : list ascii + error) (path : list ascii)
  : list ascii + error :=
  if IsAbs path then inl (Clean path)
  else match getwd with
       | inl wd => inl (Join2 wd path)
       | inr e => inr e
       end.

(** The elements of a cleaned path. *)
Definition elements (path : list ascii) : list (list ascii) :=
  filter (fun e => e <> []) (Split path Separator).

(** [inside dir p]: [dir] is a path prefix of [p], element by element. *)
Definition inside (dir p : list ascii) : bool :=
  bool_decide (elements dir `prefix_of` elements p).

(** An element that [Clean] keeps as it is. *)
Definition normal (e : list ascii) : Prop :=
  e <> [] /\ e <> str "." /\ e <> str ".." /\ Separator ∉ e.

(** The rooted clean path with the elements [out]. *)
Definition rooted_clean (out : list (list ascii)) : list ascii :=
  Separator :: Join out [Separator].

End Filepath.

(** ** [untar] (process_image.go) *)

Module Untar.
Import Filepath.

Record tarHeader : Type := {
  Name : list ascii;
  ModeIsDir : bool;     (* hdr.FileInfo().Mode().IsDir() *)
  Size : N              (* hdr.FileInfo().Size() *)
}.

(** One turn of [tr.Next()]: a member with what [io.Copy] makes of its
    body, or a read error.  The end of the list is [io.EOF]. *)
Inductive tarItem : Type :=
| Member (hdr : tarHeader) (copied : N) (cpErr : option error)
| NextFails (e : error).

(** The archive as [os.Open(tarName)] and the readers see it. *)
Record tarball : Type := {
  openErr  : option error;     (* os.Open *)
  closeErr : option error;     (* tarFile.Close() *)
  gzipErr  : option error;     (* gzip.NewReader, for a .gz/.gzip name *)
  items    : list tarItem
}.

(** The operating system under [untar]: whether each call fails. *)
Record OS : Type := {
  os_Getwd    : list ascii + error;
  os_MkdirAll : list ascii -> option error;
  os_OpenFile : list ascii -> option error;
  os_Close    : list ascii -> option error
}.

(** What [untar] has created in the file system. *)
Inductive created : Type :=
| CreatedDir (path : list ascii)                 (* os.MkdirAll(path, 0755) *)
| CreatedFile (path : list ascii) (wrote : N).   (* os.OpenFile + io.Copy *)

Definition created_path (c : created) : list ascii :=
  match c with CreatedDir p => p | CreatedFile p _ => p end.

Definition log_created (e : option error) (c : created) (fs : list created)
  : list created :=
  match e with None => fs ++ [c] | Some _ => fs end.

(** The body of the loop [for { hdr, err := tr.Next() ... }] for one
    member: the file system afterwards and [Some r] when the body returns
    [r], [None] when the loop goes on. *)
Definition untar_member (os : OS) (absPath : list ascii) (hdr : tarHeader)
    (copied : N) (cpErr : option error) (fs : list created)
  : list created * option (option error) :=
  let fileName0 := Name hdr in
  match (if IsAbs fileName0 then Rel_root fileName0 else inl fileName0) with
  | inr e => (fs, Some (Some e))
  | inl fileName =>
      let absFileName := Join2 absPath fileName in
      let fs1 :=
        if Contains fileName [Separator] then
          let relPath := Split fileName Separator in
          let absDirPath :=
            if (1 <? length relPath)%nat then
              let dirs := take (length relPath - 1)%nat relPath in
              Join2 absPath (Join dirs [Separator])
            else [] in
          (* a failure of this MkdirAll is only logged *)
          log_created (os_MkdirAll os absDirPath) (CreatedDir absDirPath) fs
        else fs in
      if ModeIsDir hdr then
        match os_MkdirAll os absFileName with
        | Some e => (fs1, Some (Some e))
        | None => (fs1 ++ [CreatedDir absFileName], None)
        end
      else
        (* create new file with original file mode *)
        match os_OpenFile os absFileName with
        | Some e => (fs1, Some (Some e))
        | None =>
            let err : option error := None in      (* OpenFile's nil *)
            let fs2 := fs1 ++ [CreatedFile absFileName copied] in
            match os_Close os absFileName with
            | Some _ => (fs2, Some err)            (* [return err] *)
            | None =>
                match cpErr with
                | Some e => (fs2, Some (Some e))
                | None =>
                    if negb (copied =? Size hdr)
                    then (fs2, Some (Some (ErrBytesWritten copied (Size hdr))))
                    else (fs2, None)
                end
            end
        end
  end.

(** The loop over the members. *)
Fixpoint untar_loop (os : OS) (absPath : list ascii) (its : list tarItem)
    (fs : list created) : list created * option error :=
  match its with
  | [] => (fs, None)                               (* io.EOF: break *)
  | NextFails e :: _ => (fs, Some e)
  | Member hdr copied cpErr :: rest =>
      match untar_member os absPath hdr copied cpErr fs with
      | (fs', Some r) => (fs', r)
      | (fs', None) => untar_loop os absPath rest fs'
      end
  end.

(** [untar(tarName, xpath)].  The result is named [err] and the deferred
    closure assigns [tarFile.Close()] to it, so once the archive is open
    every return delivers the result of [Close]. *)
Definition untar (os : OS) (tb : tarball) (tarName xpath : list ascii)
  : list created * option error :=
  match openErr tb with
  | Some e => ([], Some e)
  | None =>
      let body : list created * option error :=
        match Abs (os_Getwd os) xpath with
        | inr e => ([], Some e)
        | inl absPath =>
            let gz := HasSuffix tarName (str ".gz")
                      || HasSuffix tarName (str ".gzip") in
            match (if gz then gzipErr tb else None) with
            | Some e => ([], Some e)
            | None => untar_loop os absPath (items tb) []
            end
        end in
      (body.1, closeErr tb)
  end.

(** [extractTarFile(imageName, imageTarPath, extractPath)]. *)
Definition extractTarFile (os : OS) (tb : tarball)
    (imageTarPath extractPath : list ascii)
  : list created * (list ascii * option error) :=
  let path := extractPath in
  match untar os tb imageTarPath path with
  | (fs, Some e) => (fs, ([], Some e))
  | (fs, None) => (fs, (path, None))
  end.

(** The name of every member is rooted. *)
Definition rooted_members (its : list tarItem) : Prop :=
  Forall (fun it => match it with
                    | Member hdr _ _ => IsAbs (Name hdr) = true
                    | NextFails _ => True
                    end) its.

End Untar.

(** ** [readFile] (process_image.go) *)

Module ReadFile.

Definition newline : ascii := "010"%char.
Definition carriage_return : ascii := "013"%char.

(** [bufio.MaxScanTokenSize]. *)
Definition MaxScanTokenSize : N := 64 * 1024.

(** [dropCR] of bufio: a final carriage return is dropped. *)
Definition dropCR (data : list ascii) : list ascii :=
  match reverse data with
  | c :: before => if bool_decide (c = carriage_return) then reverse before
                   else data
  | [] => data
  end.

(** The tokens that [scanner.Scan()] delivers with the default split
    function [bufio.ScanLines] and a buffer of at most [maxTok] bytes.
    [line] is the unfinished line read so far.  A newline ends the line;
    at the end of the input a non-empty unfinished line is a last token.
    When [maxTok] bytes without a newline fill the buffer, [Scan] gives up
    (ErrTooLong) and returns false: no further token. *)
Fixpoint scan_tokens (maxTok : N) (line data : list ascii)
  : list (list ascii) :=
  match data with
  | [] => match line with [] => [] | _ => [dropCR line] end
  | c :: rest =>
      if bool_decide (c = newline) then
        dropCR line :: scan_tokens maxTok [] rest
      else if maxTok <=? N.of_nat (S (length line)) then []
      else scan_tokens maxTok (line ++ [c]) rest
  end.

(** The loop [for scanner.Scan() { ... }] of [readFile]. *)
Definition readFile_loop (tokens : list (list ascii)) : list ascii :=
  fold_left
    (fun content line =>
       if (length line =? 0)%nat then content       (* continue *)
       else content ++ line ++ [newline])
    tokens [].

(** [readFile(path)]; [file] is what [os.OpenFile(path, O_RDONLY)] yields:
    the bytes of the file, or an error.  [scanner.Err()] is not looked at. *)
Definition readFile_with (maxTok : N) (file : list ascii + error)
  : list ascii * option error :=
  match file with
  | inr err => ([], Some err)
  | inl bytes => (readFile_loop (scan_tokens maxTok [] bytes), None)
  end.

Definition readFile : list ascii + error -> list ascii * option error :=
  readFile_with MaxScanTokenSize.

(** The claim's reading of [readFile], for comparison: the lines of a file
    are the runs of bytes between newlines; the non-empty ones are joined
    again, each followed by one newline. *)
Definition join_nonempty (lines : list (list ascii)) : list ascii :=
  concat (map (fun l => l ++ [newline]) (filter (fun l => l <> []) lines)).

Definition claimed_content (bytes : list ascii) : list ascii :=
  join_nonempty (Split bytes newline).

(** A line that a newline ends and that holds no byte. *)
Definition has_empty_line (bytes : list ascii) : Prop :=
  [] ∈ removelast (Split bytes newline).

Definition lacks_trailing_newline (bytes : list ascii) : Prop :=
  last bytes <> Some newline.

(** No line reaches the token limit of the scanner. *)
Definition short_lines (maxTok : N) (bytes : list ascii) : Prop :=
  Forall (fun l => N.of_nat (length l) < maxTok) (Split bytes newline).

End ReadFile.

(** ** The writers of jobs/scan.go *)

Module Jobs.

(** [pb.MatchInfo] and [pb.SecretInfo], with the fields of the output
    format. *)
Record MatchInfo : Type := {
  StartingIndex : N;
  RelativeStartingIndex : N;
  RelativeEndingIndex : N;
  FullFilename : list ascii;
  MatchedContent : list ascii
}.

Record SecretInfo : Type := {
  ImageLayerId : list ascii;
  RuleId : N;
  RuleName : list ascii;
  Severity : list ascii;
  Match : MatchInfo
}.

Record SecretScanDoc : Type := {
  Secret : SecretInfo;
  ScanID : list ascii
}.

Definition set_FullFilename (secret : SecretInfo) (name : list ascii)
  : SecretInfo :=
  {| ImageLayerId := ImageLayerId secret; RuleId := RuleId secret;
     RuleName := RuleName secret; Severity := Severity secret;
     Match := {| StartingIndex := StartingIndex (Match secret);
                 RelativeStartingIndex := RelativeStartingIndex (Match secret);
                 RelativeEndingIndex := RelativeEndingIndex (Match secret);
                 FullFilename := name;
                 MatchedContent := MatchedContent (Match secret) |} |}.

Section Writers.

(** The package variables [SecretScanDir] and [HostMountDir]; their
    declarations are not part of the sources at hand. *)
Variables SecretScanDir HostMountDir : list ascii.

(** Whether [json.Marshal] or [writeScanDataToFile] fails for a document. *)
Variable writeFails : SecretScanDoc -> bool.

(** The document that [writeSingleScanData] hands to [json.Marshal]. *)
Definition scanDoc (secret : SecretInfo) (scan_id : list ascii)
  : SecretScanDoc :=
  let secret' :=
    if eqb SecretScanDir HostMountDir then
      set_FullFilename secret
        (Replace1 (FullFilename (Match secret)) SecretScanDir [])
    else secret in
  {| Secret := secret'; ScanID := scan_id |}.



End Writers.

End Jobs.

(** ** The traversal driver (process_image.go) *)

Module Scan.
Import Filepath.

Set Warnings "-register-all".

(** Go's [uint] arithmetic. *)
Definition uint_size : N := 2 ^ 64.
Definition uadd (a b : N) : N := (a + b) mod uint_size.
Definition umul (a b : N) : N := (a * b) mod uint_size.

(** [core.ExtractedImageFilesDir]. *)
Definition ExtractedImageFilesDir : list ascii := str "ExtractedFiles".

(** The options of [core.Options] that the driver reads. *)
Record Options : Type := {
  MaximumFileSize : N;
  MultipleMatch : bool;
  MaxMultiMatch : N;
  MaxSecrets : N
}.

(** [core.MatchFile], as the driver uses it. *)
Record MatchFile : Type := {
  Path : list ascii;
  Filename : list ascii;
  Extension : list ascii
}.

(** A directory entry as [filepath.WalkDir] meets it. *)
Record fileNode : Type := {
  IsRegular : bool;                  (* f.Type().IsRegular() *)
  Info : N + error;                  (* f.Info(): finfo.Size(), or an error *)
  Bytes : list ascii + error         (* os.OpenFile and the bytes read *)
}.

Inductive DirEntry : Type :=
| FileEntry (name : list ascii) (f : fileNode)
| Directory (name : list ascii) (readDirErr : option string)
    (entries : list DirEntry).

Definition entry_Name (d : DirEntry) : list ascii :=
  match d with FileEntry n _ => n | Directory n _ _ => n end.

Definition entry_IsDir (d : DirEntry) : bool :=
  match d with FileEntry _ _ => false | Directory _ _ _ => true end.

(** A result or a run-time panic (index out of range). *)
Inductive outcome (A : Type) : Type :=
| Returns (a : A)
| Panics.
Arguments Returns {A} a.
Arguments Panics {A}.

(** The two surfaces of the driver. *)
Inductive surface : Type := Batch | Stream.

Section Driver.

(** [output.SecretFound]; the driver only moves findings around. *)
Context {SecretFound : Type}.

(** The functions of the packages [core] and [signature] and of
    [filepath] that the driver calls and that are not part of the sources
    at hand.  The matchers receive [*numSecrets] and the map and give back
    what they left there. *)
Record Externals : Type := {
  IsSkippableDir : list ascii -> list ascii -> bool;
  IsSkippableFileExtension : list ascii -> bool;
  NewMatchFile : list ascii -> MatchFile;
  Rel : list ascii -> list ascii -> list ascii + error;
  MatchPatternSignatures :
    list ascii -> list ascii -> list ascii -> list ascii -> list ascii ->
    N -> gmap N N -> (list SecretFound * option error) * (N * gmap N N);
  MatchSimpleSignatures :
    list ascii -> list ascii -> list ascii -> list ascii ->
    N -> list SecretFound * N
}.

(** What can be observed of a walk, in order. *)
Inductive event : Type :=
| Checkpointed (stopped : bool)     (* a call of scanCtx.Checkpoint *)
| Emitted (s : SecretFound).        (* an append to the slice, or a send *)

(** The variables that the callback of a walk closes over.  [found] is the
    slice [secretsFound] (batch) or the values sent on [res] (stream);
    [checkpoints] counts the calls of [Checkpoint]; [events] is the record
    of what happened. *)
Record walkState : Type := {
  found : list SecretFound;
  numSecrets : N;
  matchedRuleSet : gmap N N;
  checkpoints : nat;
  events : list event
}.

Variable X : Externals.
Variable opts : Options.

(** [scanFile]. *)
Definition scanFile (bytes : list ascii + error)
    (relPath fileName fileExtension layer : list ascii)
    (numSecrets : N) (matchedRuleSet : gmap N N)
  : (list SecretFound * option error) * (N * gmap N N) :=
  match ReadFile.readFile bytes with
  | (_, Some err) => (([], Some err), (numSecrets, matchedRuleSet))
  | (contents, None) =>
      match MatchPatternSignatures X contents relPath fileName fileExtension
              layer numSecrets matchedRuleSet with
      | ((_, Some err), after) => (([], Some err), after)
      | ((secrets, None), after) => ((secrets, None), after)
      end
  end.

(** Batch: [secretsFound = append(secretsFound, secrets...)].
    Stream: [for i := range secrets { res <- secrets[i] }]. *)
Definition emit (sf : surface) (found secrets : list SecretFound)
  : list SecretFound :=
  match sf with
  | Batch => found ++ secrets
  | Stream => fold_left (fun res s => res ++ [s]) secrets found
  end.

Definition emit_state (sf : surface) (secrets : list SecretFound)
    (numSecrets : N) (matchedRuleSet : gmap N N) (st : walkState)
  : walkState :=
  {| found := emit sf (found st) secrets;
     numSecrets := numSecrets;
     matchedRuleSet := matchedRuleSet;
     checkpoints := checkpoints st;
     events := events st ++ map Emitted secrets |}.

(** The path that [IsSkippableDir] is asked about. *)
Definition scanDirPath (layer baseDir path : list ascii) : list ascii :=
  if negb (eqb layer []) then
    let p := TrimPrefix path (baseDir ++ str "/" ++ layer) in
    if eqb p [] then str "/" else p
  else path.

(** The callback given to [filepath.WalkDir], the same in
    [ScanSecretsInDir] and [ScanSecretsInDirStream] up to how findings
    leave it.  [Checkpoint k] tells whether the call number [k] of
    [scanCtx.Checkpoint] returns an error. *)
Definition walkFn (sf : surface) (Checkpoint : nat -> bool)
    (layer baseDir : list ascii)
    (path : list ascii) (f : option DirEntry) (err : option error)
    (st : walkState) : walkState * option error :=
  match err with
  | Some e => (st, Some e)
  | None =>
      let stopped := Checkpoint (checkpoints st) in
      let st :=
        {| found := found st; numSecrets := numSecrets st;
           matchedRuleSet := matchedRuleSet st;
           checkpoints := S (checkpoints st);
           events := events st ++ [Checkpointed stopped] |} in
      if stopped then (st, Some ErrCheckpoint)
      else
        match f with
        | None => (st, None)
        | Some (Directory _ _ _) =>
            if IsSkippableDir X (scanDirPath layer baseDir path) baseDir
            then (st, Some SkipDir)
            else (st, None)
        | Some (FileEntry _ f) =>
            (* No need to scan sym links. *)
            if negb (IsRegular f) then (st, None)
            else
              match Info f with
              | inr _ => (st, None)
              | inl size =>
                  let maxFileSize := umul (MaximumFileSize opts) 1024 in
                  if (maxFileSize <? size) || IsSkippableFileExtension X path
                  then (st, None)
                  else
                    let file := NewMatchFile X path in
                    let relPath :=
                      match Rel X (Join2 baseDir layer) (Path file) with
                      | inl r => r
                      | inr _ => Path file
                      end in
                    let '((secrets, err), (n1, m1)) :=
                      scanFile (Bytes f) relPath (Filename file)
                        (Extension file) layer
                        (numSecrets st) (matchedRuleSet st) in
                    let st1 :=
                      match err with
                      | Some _ => emit_state sf [] n1 m1 st
                      | None => emit_state sf secrets n1 m1 st
                      end in
                    let '(secrets2, n2) :=
                      MatchSimpleSignatures X relPath (Filename file)
                        (Extension file) layer n1 in
                    let st2 := emit_state sf secrets2 n2 m1 st1 in
                    (* Don't report secrets if number of secrets exceeds
                       MAX value *)
                    if (MaxSecrets opts <=? n2)
                    then (st2, Some maxSecretsExceeded)
                    else (st2, None)
              end
        end
  end.

(** The error that [walkDir] passes up after the callback returned [e] on
    a directory: a skipped directory is no error. *)
Definition after_dir (e : error) : option error :=
  if bool_decide (e = SkipDir) then None else Some e.

(** [walkDir] of [path/filepath] with callback [fn]. *)
Fixpoint walkDir
    (fn : list ascii -> option DirEntry -> option error ->
          walkState -> walkState * option error)
    (path : list ascii) (d : DirEntry) (st : walkState)
  : walkState * option error :=
  match d with
  | FileEntry _ _ => fn path (Some d) None st
  | Directory _ readDirErr entries =>
      let walk_entries :=
        fix loop (ds : list DirEntry) (s : walkState)
          : walkState * option error :=
          match ds with
          | [] => (s, None)
          | d1 :: rest =>
              match walkDir fn (Join2 path (entry_Name d1)) d1 s with
              | (s', Some e) =>
                  if bool_decide (e = SkipDir) then (s', None)   (* break *)
                  else (s', Some e)
              | (s', None) => loop rest s'
              end
          end in
      match fn path (Some d) None st with
      | (st1, Some e) => (st1, after_dir e)
      | (st1, None) =>
          match readDirErr with
          | Some msg =>
              (* Second call, to report ReadDir error. *)
              match fn path (Some d) (Some (ErrOS msg)) st1 with
              | (st2, Some e) => (st2, after_dir e)
              | (st2, None) => walk_entries entries st2
              end
          | None => walk_entries entries st1
          end
      end
  end.

(** [filepath.WalkDir(root, fn)]; [root] is what [os.Lstat] finds. *)
Definition WalkDir
    (fn : list ascii -> option DirEntry -> option error ->
          walkState -> walkState * option error)
    (path : list ascii) (root : DirEntry + string) (st : walkState)
  : walkState * option error :=
  let '(st', err) :=
    match root with
    | inr msg => fn path None (Some (ErrOS msg)) st
    | inl d => walkDir fn path d st
    end in
  (st', match err with
        | Some e => after_dir e
        | None => None
        end).

Definition walkState_init : walkState :=
  {| found := []; numSecrets := 0; matchedRuleSet := ∅;
     checkpoints := 0%nat; events := [] |}.

(** The walk of [ScanSecretsInDir] ([Batch]) and of the goroutine of
    [ScanSecretsInDirStream] ([Stream]): the final state and [walkErr]. *)
Definition scanWalk (sf : surface) (Checkpoint : nat -> bool)
    (layer baseDir fullDir : list ascii) (root : DirEntry + string)
  : walkState * option error :=
  WalkDir (walkFn sf Checkpoint layer baseDir) fullDir root walkState_init.

(** [ScanSecretsInDir]: [walkErr] is logged and dropped. *)
Definition ScanSecretsInDir (Checkpoint : nat -> bool)
    (layer baseDir fullDir : list ascii) (root : DirEntry + string)
  : list SecretFound * option error :=
  let '(st, walkErr) := scanWalk Batch Checkpoint layer baseDir fullDir root in
  (found st, None).

(** [ScanSecretsInDirStream]: [Some res] is the channel made by [make],
    given by the values sent on it until the goroutine closes it. *)
Definition ScanSecretsInDirStream (Checkpoint : nat -> bool)
    (layer baseDir fullDir : list ascii) (root : DirEntry + string)
  : option (list SecretFound) * option error :=
  let '(st, walkErr) := scanWalk Stream Checkpoint layer baseDir fullDir root in
  (Some (found st), None).

(** The events of a walk. *)
Definition scanEvents (sf : surface) (Checkpoint : nat -> bool)
    (layer baseDir fullDir : list ascii) (root : DirEntry + string)
  : list event :=
  events (scanWalk sf Checkpoint layer baseDir fullDir root).1.

(** The findings among some events. *)
Fixpoint emitted (evs : list event) : list SecretFound :=
  match evs with
  | [] => []
  | Emitted s :: rest => s :: emitted rest
  | Checkpointed _ :: rest => emitted rest
  end.

(** *** What a walk maintains *)

(** What a callback, and then the walk, establishes from [Inv]: [Inv]
    again when the walk goes on (no error, or [SkipDir]), [Fin] when an
    error ends it. *)
Definition walk_post (Inv : walkState -> Prop)
    (Fin : walkState -> error -> Prop) (r : walkState * option error)
  : Prop :=
  match r.2 with
  | None => Inv r.1
  | Some e => if bool_decide (e = SkipDir) then Inv r.1 else Fin r.1 e
  end.

(** The record of events agrees with the findings, and holds no
    checkpoint that stopped the scan. *)
Definition running (st : walkState) : Prop :=
  found st = emitted (events st) /\ Checkpointed true ∉ events st.

(** As [running], or a stopping checkpoint is the last event. *)
Definition ended (st : walkState) (e : error) : Prop :=
  found st = emitted (events st)
  /\ (Checkpointed true ∉ events st
      \/ exists pre, events st = pre ++ [Checkpointed true]
                     /\ Checkpointed true ∉ pre).

(** *** Image layers *)

(** What the loop over the layers meets at layer [i]: the results of
    [core.CreateRecursiveDir(targetDir)] and of [extractTarFile], the tree
    that the walk then finds at [targetDir], and the answers of
    [scanCtx.Checkpoint] during that walk. *)
Record layerWorld : Type := {
  createDirErr : option error;
  extractErr : option error;
  targetRoot : DirEntry + string;
  checkpoint : nat -> bool
}.

Definition set_numSecrets (imageScan : Image.ImageScan) (n : N)
  : Image.ImageScan :=
  {| Image.imageName := Image.imageName imageScan;
     Image.imageId := Image.imageId imageScan;
     Image.tempDir := Image.tempDir imageScan;
     Image.imageManifest := Image.imageManifest imageScan;
     Image.numSecrets := n |}.

(** The loop [for i := 0; i < loopCntr; i++] of [processImageLayers];
    [todo] holds the values of [i] still to come. *)
Fixpoint processImageLayers_loop (world : nat -> layerWorld)
    (imageManifestPath extractPath : list ascii)
    (layerIDs layerPaths : list (list ascii)) (todo : list nat)
    (imageScan : Image.ImageScan) (tempSecretsFound : list SecretFound)
  : outcome (Image.ImageScan * (list SecretFound * option error)) :=
  match todo with
  | [] => Returns (imageScan, (tempSecretsFound, None))
  | i :: rest =>
      match layerPaths !! i, layerIDs !! i with
      | Some layerPath, Some layerID =>
          let completeLayerPath := Join2 imageManifestPath layerPath in
          let targetDir := Join2 extractPath layerID in
          match createDirErr (world i) with
          | Some err => Returns (imageScan, (tempSecretsFound, Some err))
          | None =>
              (* extractTarFile: Don't stop. Print error and continue with
                 remaning extracted files and other layers *)
              let '(secrets, err) :=
                ScanSecretsInDir (checkpoint (world i)) layerID extractPath
                  targetDir (targetRoot (world i)) in
              let imageScan :=
                set_numSecrets imageScan
                  (uadd (Image.numSecrets imageScan)
                        (N.of_nat (length secrets))) in
              let tempSecretsFound := tempSecretsFound ++ secrets in
              (* Don't report secrets if number of secrets exceeds MAX
                 value *)
              if MaxSecrets opts <=? Image.numSecrets imageScan
              then Returns (imageScan, (tempSecretsFound, None))
              else processImageLayers_loop world imageManifestPath
                     extractPath layerIDs layerPaths rest imageScan
                     tempSecretsFound
          end
      | _, _ => Panics
      end
  end.

(** [processImageLayers]. *)
Definition processImageLayers (world : nat -> layerWorld)
    (imageScan : Image.ImageScan) (imageManifestPath : list ascii)
  : outcome (Image.ImageScan * (list SecretFound * option error)) :=
  let extractPath := Join2 imageManifestPath ExtractedImageFilesDir in
  let layerIDs := LayerIds (Image.imageManifest imageScan) in
  let layerPaths := Layers (Image.imageManifest imageScan) in
  let loopCntr := length layerPaths in
  processImageLayers_loop world imageManifestPath extractPath layerIDs
    layerPaths (seq 0 loopCntr) imageScan [].

(** The loop of the goroutine of [processImageLayersStream]; [res] holds
    the values sent so far. *)
Fixpoint processImageLayersStream_loop (world : nat -> layerWorld)
    (imageManifestPath extractPath : list ascii)
    (layerIDs layerPaths : list (list ascii)) (todo : list nat)
    (imageScan : Image.ImageScan) (res : list SecretFound)
  : outcome (Image.ImageScan * list SecretFound) :=
  match todo with
  | [] => Returns (imageScan, res)
  | i :: rest =>
      let continue := processImageLayersStream_loop world imageManifestPath
                        extractPath layerIDs layerPaths rest in
      match layerPaths !! i, layerIDs !! i with
      | Some layerPath, Some layerID =>
          let completeLayerPath := Join2 imageManifestPath layerPath in
          let targetDir := Join2 extractPath layerID in
          match createDirErr (world i) with
          | Some _ => continue imageScan res
          | None =>
              match extractErr (world i) with
              | Some _ => continue imageScan res
              | None =>
                  let '(secrets, err) :=
                    ScanSecretsInDir (checkpoint (world i)) layerID
                      extractPath targetDir (targetRoot (world i)) in
                  let imageScan :=
                    set_numSecrets imageScan
                      (uadd (Image.numSecrets imageScan)
                            (N.of_nat (length secrets))) in
                  let res := emit Stream res secrets in
                  match err with
                  | Some _ => continue imageScan res
                  | None =>
                      if MaxSecrets opts <=? Image.numSecrets imageScan
                      then Returns (imageScan, res)               (* break *)
                      else continue imageScan res
                  end
              end
          end
      | _, _ => Panics
      end
  end.

(** [processImageLayersStream]: the channel, given by the values sent on
    it until the goroutine ends, and a nil error. *)
Definition processImageLayersStream (world : nat -> layerWorld)
    (imageScan : Image.ImageScan) (imageManifestPath : list ascii)
  : outcome (Image.ImageScan * (option (list SecretFound) * option error)) :=
  let extractPath := Join2 imageManifestPath ExtractedImageFilesDir in
  let layerIDs := LayerIds (Image.imageManifest imageScan) in
  let layerPaths := Layers (Image.imageManifest imageScan) in
  let loopCntr := length layerPaths in
  match processImageLayersStream_loop world imageManifestPath extractPath
          layerIDs layerPaths (seq 0 loopCntr) imageScan [] with
  | Returns (imageScan', res) => Returns (imageScan', (Some res, None))
  | Panics => Panics
  end.

End Driver.

End Scan.

(** ** The matchers of package [signature] *)

Module Signature.
Import Scan.

(** Modelled from the spec: [output.SecretFound] is not part of the
    sources at hand.  A finding names its rule, its layer, the relative
    path of its file and the byte offset of the match. *)
Record Finding : Type := {
  RuleID : N;
  LayerID : list ascii;
  CompleteFilename : list ascii;
  MatchFromByte : nat
}.

(** Modelled from the spec: the rule catalog is not part of the sources at
    hand.  A compiled rule has an id, the part of the file it targets and
    its compiled signature: the offsets at which it matches the string it
    is applied to, from left to right. *)
Inductive part : Type := contents | filename | extension | path.

Record Rule : Type := {
  id : N;
  rule_part : part;
  signature : list ascii -> list nat
}.

(** Modelled from the spec: the signature [literal_substring(s)], with
    [pos] the offset of [text] in the string searched. *)
Fixpoint literal_at (s text : list ascii) (pos : nat) : list nat :=
  (if HasPrefix text s then [pos] else [])
  ++ match text with
     | [] => []
     | _ :: t => literal_at s t (S pos)
     end.

Definition literal_substring (s : list ascii) : list ascii -> list nat :=
  fun text => literal_at s text 0.

Section Matchers.

Variable opts : Options.
Variable catalog : list Rule.

(** Modelled from the spec: "at most one match per (file, rule) pair" with
    multi-match off, "at most max_multi_match" with it on. *)
Definition multiplicity : N :=
  if MultipleMatch opts then MaxMultiMatch opts else 1.

(** Modelled from the spec: the findings of one rule.  No finding is
    produced once [num_secrets] has reached [max_secrets];
    [matched_rule_set[rule_id]] counts the emitted matches and is the
    authority for the multiplicity cap; every finding produced increments
    [num_secrets]. *)
Fixpoint report (rule_id : N) (mk : nat -> Finding) (offsets : list nat)
    (secrets : list Finding) (num_secrets : N) (matched_rule_set : gmap N N)
  : list Finding * (N * gmap N N) :=
  match offsets with
  | [] => (secrets, (num_secrets, matched_rule_set))
  | o :: rest =>
      let count := default 0 (matched_rule_set !! rule_id) in
      if MaxSecrets opts <=? num_secrets
      then (secrets, (num_secrets, matched_rule_set))
      else if multiplicity <=? count
      then (secrets, (num_secrets, matched_rule_set))
      else report rule_id mk rest (secrets ++ [mk o])
             (uadd num_secrets 1)
             (<[rule_id := uadd count 1]> matched_rule_set)
  end.

Definition is_contents (r : Rule) : bool :=
  match rule_part r with contents => true | _ => false end.

(** Modelled from the spec: [signature.MatchPatternSignatures], the
    content matcher of section 4.3, is not part of the sources at hand.
    Every content rule scans the contents from left to right. *)
Definition MatchPatternSignatures
    (contents_ relPath fileName fileExtension layer : list ascii)
    (numSecrets : N) (matchedRuleSet : gmap N N)
  : (list Finding * option error) * (N * gmap N N) :=
  let '(secrets, after) :=
    fold_left
      (fun '(secrets, (n, m)) r =>
         report (id r)
           (fun o => {| RuleID := id r; LayerID := layer;
                        CompleteFilename := relPath; MatchFromByte := o |})
           (signature r contents_) secrets n m)
      (filter (fun r => is_contents r = true) catalog)
      ([], (numSecrets, matchedRuleSet)) in
  ((secrets, None), after).

(** Modelled from the spec: [signature.MatchSimpleSignatures], the
    path/name matcher of section 4.4, is not part of the sources at hand.
    Every metadata rule that fires on its part of the file produces one
    finding, counted like a content finding. *)
Definition MatchSimpleSignatures
    (relPath fileName fileExtension layer : list ascii) (numSecrets : N)
  : list Finding * N :=
  fold_left
    (fun '(secrets, n) r =>
       let target :=
         match rule_part r with
         | filename => fileName
         | extension => fileExtension
         | _ => relPath
         end in
       match signature r target with
       | [] => (secrets, n)
       | _ :: _ =>
           if MaxSecrets opts <=? n then (secrets, n)
           else (secrets ++ [{| RuleID := id r; LayerID := layer;
                                CompleteFilename := relPath;
                                MatchFromByte := 0 |}],
                 uadd n 1)
       end)
    (filter (fun r => is_contents r = false) catalog)
    ([], numSecrets).

(** The driver's collaborators with these matchers; the functions of
    package [core] and [filepath.Rel] stay parameters. *)
Definition externals
    (IsSkippableDir : list ascii -> list ascii -> bool)
    (IsSkippableFileExtension : list ascii -> bool)
    (NewMatchFile : list ascii -> MatchFile)
    (Rel : list ascii -> list ascii -> list ascii + error)
  : @Externals Finding :=
  {| Scan.IsSkippableDir := IsSkippableDir;
     Scan.IsSkippableFileExtension := IsSkippableFileExtension;
     Scan.NewMatchFile := NewMatchFile;
     Scan.Rel := Rel;
     Scan.MatchPatternSignatures := MatchPatternSignatures;
     Scan.MatchSimpleSignatures := MatchSimpleSignatures |}.

(** The counter of a walk is the number of its findings, and is within
    the cap. *)
Definition counted (st : @walkState Finding) : Prop :=
  numSecrets st = N.of_nat (length (found st))
  /\ numSecrets st <= MaxSecrets opts.

Definition within_cap (st : @walkState Finding) (e : error) : Prop :=
  N.of_nat (length (found st)) <= MaxSecrets opts.

End Matchers.

End Signature.

(** ** Concrete worlds for the examples *)

Module Examples.
Import Scan Signature.
Local Open Scope string_scope.

(** A catalog with one content rule: the literal [KEY=]. *)
Definition catalog1 : list Rule :=
  [ {| id := 1; rule_part := contents;
       signature := literal_substring (str "KEY=") |} ].

(** Nothing is skipped; the file name is the last element of the path
    and has no extension; the relative path is the path without the base
    directory. *)
Definition plain (opts : Options) (catalog : list Rule) : @Externals Finding :=
  externals opts catalog
    (fun _ _ => false) (fun _ => false)
    (fun p => {| Path := p;
                 Filename := default [] (last (Split p Filepath.Separator));
                 Extension := [] |})
    (fun base targ => inl (TrimPrefix targ (base ++ str "/"))).

Definition options (maxSecrets : N) : Options :=
  {| MaximumFileSize := 256; MultipleMatch := false; MaxMultiMatch := 3;
     MaxSecrets := maxSecrets |}.

Definition nl : string := String ReadFile.newline EmptyString.

(** A regular file with the given content. *)
Definition file (name content : string) : DirEntry :=
  FileEntry (str name)
    {| IsRegular := true;
       Info := inl (N.of_nat (String.length content));
       Bytes := inl (str content) |}.

Definition dir (name : string) (entries : list DirEntry) : DirEntry :=
  Directory (str name) None entries.

Definition never : nat -> bool := fun _ => false.

(** A catalog with two content rules: the literals [KEY=] and [TOKEN=]. *)
Definition catalog2 : list Rule :=
  [ {| id := 1; rule_part := contents;
       signature := literal_substring (str "KEY=") |};
    {| id := 2; rule_part := contents;
       signature := literal_substring (str "TOKEN=") |} ].

(** An image whose manifest lists the given layers, as [extractImage]
    leaves it. *)
Definition image (layers : list string) : Image.ImageScan :=
  (Image.extractImage
     {| Image.imageName := str "img"; Image.imageId := [];
        Image.tempDir := str "/tmp/t";
        Image.imageManifest := manifestItem_zero; Image.numSecrets := 0 |}
     true None None
     (Decodes [ {| Config := str "c.json"; RepoTags := [];
                   Layers := map str layers; LayerIds := [] |} ])).1.

(** Layers that extract without error; [roots] are their trees. *)
Definition extracted (roots : list DirEntry) (i : nat) : layerWorld :=
  {| createDirErr := None; extractErr := None;
     targetRoot :=
       match roots !! i with
       | Some d => inl d
       | None => inr "no such file or directory"%string
       end;
     checkpoint := never |}.

(** An operating system on which every call succeeds. *)
Definition os_ok : Untar.OS :=
  {| Untar.os_Getwd := inl (str "/");
     Untar.os_MkdirAll := fun _ => None;
     Untar.os_OpenFile := fun _ => None;
     Untar.os_Close := fun _ => None |}.

(** An archive of regular files of three bytes each. *)
Definition archive (closeErr : option error) (names : list string)
  : Untar.tarball :=
  {| Untar.openErr := None; Untar.closeErr := closeErr;
     Untar.gzipErr := None;
     Untar.items :=
       map (fun n => Untar.Member
                       {| Untar.Name := str n; Untar.ModeIsDir := false;
                          Untar.Size := 3 |} 3 None) names |}.

(** One layer whose archive holds the file [env]; [closeErr] is the
    result of closing the archive, and so of [extractTarFile]. *)
Definition one_layer (closeErr : option error) (i : nat) : layerWorld :=
  {| createDirErr := None;
     extractErr :=
       (Untar.extractTarFile os_ok (archive closeErr ["env"])
          (str "/tmp/t/l0/layer.tar")
          (str "/tmp/t/ExtractedFiles/l0")).2.2;
     targetRoot := inl (dir "l0" [file "env" "KEY=a"]);
     checkpoint := never |}.

Definition finding (rule : N) (layer name : string) (from : nat) : Finding :=
  {| RuleID := rule; LayerID := str layer; CompleteFilename := str name;
     MatchFromByte := from |}.

(** A directory [/r] with the given entries, as the root of a walk. *)
Definition root (entries : list DirEntry) : DirEntry + string :=
  inl (dir "r" entries).

(** Two files that both hold a match of the rule [KEY=]. *)
Definition file_a : DirEntry := file "a" ("KEY=1" ++ nl).
Definition file_b : DirEntry := file "b" ("KEY=2" ++ nl).

(** An image of two layers: one match in the first, two in the second. *)
Definition two_layers : nat -> layerWorld :=
  extracted [ dir "l0" [file "env" "KEY=a"];
              dir "l1" [file "env" ("KEY=b" ++ nl ++ "TOKEN=c")] ].

Definition two_layer_image : Image.ImageScan :=
  image ["l0/layer.tar"; "l1/layer.tar"].

Definition one_layer_image : Image.ImageScan := image ["l0/layer.tar"].

Definition close_fails : error := ErrOS "close: input/output error".

(** The two layers again; the directory of the first cannot be made. *)
Definition mkdir_fails : error := ErrOS "mkdir: permission denied".

Definition first_mkdir_fails (i : nat) : layerWorld :=
  match i with
  | O => {| createDirErr := Some mkdir_fails; extractErr := None;
            targetRoot := inr "no such file or directory";
            checkpoint := never |}
  | _ => two_layers i
  end.

(** A manifest entry with the given layers. *)
Definition manifest_of (layers : list string) : manifestItem :=
  {| Config := str "c.json"; RepoTags := []; Layers := map str layers;
     LayerIds := [] |}.



End Examples.

(** ** [repeatableStringValue] (package core, options) *)

Module CoreOptions.

Record repeatableStringValue : Type := { values : list (list ascii) }.

(** [func (v *repeatableStringValue) String() string]. *)
Definition repeatableStringValue_String (v : repeatableStringValue)
  : list ascii :=
  Join (values v) (str ", ").

(** [func (v *repeatableStringValue) Set(s string) error]: the value
    afterwards and the error returned. *)
Definition repeatableStringValue_Set (v : repeatableStringValue)
    (s : list ascii) : repeatableStringValue * option error :=
  ({| values := values v ++ [s] |}, None).

(** [func (v *repeatableStringValue) Values() []string]. *)
Definition repeatableStringValue_Values (v : repeatableStringValue)
  : list (list ascii) :=
  values v.

(** What [flag.Parse] does with the occurrences of [-config-path]: one
    call of [Set] for each, in the order of the command line, until a call
    returns an error. *)
Fixpoint flag_Var (v : repeatableStringValue) (args : list (list ascii))
  : repeatableStringValue * option error :=
  match args with
  | [] => (v, None)
  | s :: rest =>
      match repeatableStringValue_Set v s with
      | (v', Some err) => (v', Some err)
      | (v', None) => flag_Var v' rest
      end
  end.

End CoreOptions.

(** ** What the prefilter of a walk lets through *)

Module Prefilter.
Import Scan.

(** Whether the tree holds a file that the callback of a walk would hand
    to [scanFile], as far as its type, its info and its size decide:
    a regular file whose info can be read and whose size is at most
    [maxFileSize]. *)
Fixpoint has_scannable (maxFileSize : N) (d : DirEntry) : bool :=
  match d with
  | FileEntry _ f =>
      IsRegular f
      && match Info f with
         | inl size => negb (maxFileSize <? size)
         | inr _ => false
         end
  | Directory _ _ entries => existsb (has_scannable maxFileSize) entries
  end.

(** Matchers that count what they return and stay within the cap: entered
    with a counter of at most [max-secrets], they leave it raised by the
    number of findings they return, and still at most [max-secrets]. *)
Definition counting_matchers {SecretFound : Type}
    (X : @Externals SecretFound) (opts : Options) : Prop :=
  (forall contents relPath fileName ext layer n m,
      n <= MaxSecrets opts ->
      let r := MatchPatternSignatures X contents relPath fileName ext layer
                 n m in
      r.2.1 = n + N.of_nat (length r.1.1) /\ r.2.1 <= MaxSecrets opts)
  /\ (forall relPath fileName ext layer n,
        n <= MaxSecrets opts ->
        let r := MatchSimpleSignatures X relPath fileName ext layer n in
        r.2 = n + N.of_nat (length r.1) /\ r.2 <= MaxSecrets opts).

(** The loop [for _, d1 := range dirs] of [walkDir], by itself: the walk
    of the entries [ds] of the directory [path]. *)
Fixpoint walk_entries {SecretFound : Type}
    (fn : list ascii -> option DirEntry -> option error ->
          @walkState SecretFound -> @walkState SecretFound * option error)
    (path : list ascii) (ds : list DirEntry) (s : @walkState SecretFound)
  : @walkState SecretFound * option error :=
  match ds with
  | [] => (s, None)
  | d1 :: rest =>
      match walkDir fn (Filepath.Join2 path (entry_Name d1)) d1 s with
      | (s', Some e) =>
          if bool_decide (e = SkipDir) then (s', None) else (s', Some e)
      | (s', None) => walk_entries fn path rest s'
      end
  end.

(** With counting matchers the findings of a walk stay below its counter,
    and the counter within the cap. *)
Definition below_counter {SecretFound : Type} (opts : Options)
    (st : @walkState SecretFound) : Prop :=
  N.of_nat (length (found st)) <= numSecrets st
  /\ numSecrets st <= MaxSecrets opts.

Definition below_cap {SecretFound : Type} (opts : Options)
    (st : @walkState SecretFound) (e : error) : Prop :=
  N.of_nat (length (found st)) <= MaxSecrets opts.

End Prefilter.

(** ** The entry points of process_image.go *)

Module EntryPoints.
Import Scan.

Section Entries.

Context {SecretFound : Type}.
Variable X : @Externals SecretFound.
Variable opts : Options.

Record ImageExtractionResult : Type := {
  Secrets : list SecretFound;
  ImageId : list ascii
}.

(** What an image scan meets: the result of [core.GetTmpDir], of
    [saveImageData], of [extractTarFile] on the saved archive, the
    manifest file, and the layers. *)
Record imageWorld : Type := {
  GetTmpDir : list ascii + error;
  saveErr : option error;
  untarErr : option error;
  manifest : manifestFile;
  layers : nat -> layerWorld
}.

(** [ImageScan{imageName: image, imageId: "", tempDir: tempDir}]. *)
Definition new_ImageScan (image tempDir : list ascii) : Image.ImageScan :=
  {| Image.imageName := image; Image.imageId := [];
     Image.tempDir := tempDir; Image.imageManifest := manifestItem_zero;
     Image.numSecrets := 0 |}.

(** [imageScan.scan(scanCtx)].  Beside the result, the directories that
    [core.DeleteTmpDir] was called on: the deferred call runs on every
    way out. *)
Definition scan (world : nat -> layerWorld) (imageScan : Image.ImageScan)
  : outcome (Image.ImageScan * (list SecretFound * option error))
    * list (list ascii) :=
  let tempDir := Image.tempDir imageScan in
  match processImageLayers X opts world imageScan tempDir with
  | Returns (imageScan', (tempSecretsFound, Some err)) =>
      (Returns (imageScan', (tempSecretsFound, Some err)), [tempDir])
  | Returns (imageScan', (tempSecretsFound, None)) =>
      (Returns (imageScan', (tempSecretsFound, None)), [tempDir])
  | Panics => (Panics, [tempDir])
  end.

(** [imageScan.scanStream(scanCtx)]. *)
Definition scanStream (world : nat -> layerWorld)
    (imageScan : Image.ImageScan)
  : outcome (Image.ImageScan * (option (list SecretFound) * option error)) :=
  processImageLayersStream X opts world imageScan (Image.tempDir imageScan).

(** The common end of [ExtractAndScanImage] and [ExtractAndScanFromTar]:
    [imageScan.scan] and the result built from it. *)
Definition scan_result (world : nat -> layerWorld)
    (imageScan : Image.ImageScan)
  : outcome (option ImageExtractionResult * option error)
    * list (list ascii) :=
  match scan world imageScan with
  | (Panics, deleted) => (Panics, deleted)
  | (Returns (_, (_, Some err)), deleted) =>
      (Returns (None, Some err), deleted)
  | (Returns (imageScan', (secrets, None)), deleted) =>
      (Returns (Some {| ImageId := Image.imageId imageScan';
                        Secrets := secrets |}, None), deleted)
  end.

(** [ExtractAndScanFromTar(tarFolder, imageName, scanCtx)]. *)
Definition ExtractAndScanFromTar (w : imageWorld)
    (tarFolder imageName : list ascii)
  : outcome (option ImageExtractionResult * option error)
    * list (list ascii) :=
  let imageScan := new_ImageScan imageName tarFolder in
  match Image.extractImage imageScan false (saveErr w) (untarErr w)
          (manifest w) with
  | (_, Some err) => (Returns (None, Some err), [])
  | (imageScan, None) => scan_result (layers w) imageScan
  end.

(** [ExtractAndScanImage(image)].  The scan context handed to [scan] is
    nil; what [Checkpoint] answers on it is part of the layers of [w]. *)
Definition ExtractAndScanImage (w : imageWorld) (image : list ascii)
  : outcome (option ImageExtractionResult * option error)
    * list (list ascii) :=
  match GetTmpDir w with
  | inr err => (Returns (None, Some err), [])
  | inl tempDir =>
      let imageScan := new_ImageScan image tempDir in
      match Image.extractImage imageScan true (saveErr w) (untarErr w)
              (manifest w) with
      | (_, Some err) => (Returns (None, Some err), [])
      | (imageScan, None) => scan_result (layers w) imageScan
      end
  end.

(** [ExtractAndScanImageStream(image, scanCtx)]: the channel returned,
    given by the values that the forwarding goroutine sends on it until it
    closes it, and the directories deleted when that goroutine has
    ended. *)
Definition ExtractAndScanImageStream (w : imageWorld) (image : list ascii)
  : outcome (option (list SecretFound) * option error)
    * list (list ascii) :=
  match GetTmpDir w with
  | inr err => (Returns (None, Some err), [])
  | inl tempDir =>
      let imageScan := new_ImageScan image tempDir in
      match Image.extractImage imageScan true (saveErr w) (untarErr w)
              (manifest w) with
      | (_, Some err) => (Returns (None, Some err), [tempDir])
      | (imageScan, None) =>
          match scanStream (layers w) imageScan with
          | Panics => (Panics, [])
          | Returns (_, (_, Some err)) =>
              (Returns (None, Some err), [tempDir])
          | Returns (_, (Some stream, None)) =>
              (* for i := range stream { res <- i } *)
              (Returns (Some (fold_left (fun res i => res ++ [i]) stream []),
                        None), [tempDir])
          | Returns (_, (None, None)) =>
              (* a nil channel: the goroutine never leaves its loop *)
              (Returns (Some [], None), [])
          end
      end
  end.

End Entries.

End EntryPoints.

(** ** Inputs for the witnesses *)

Module Witnesses.
Import Scan Signature Examples.
Local Open Scope string_scope.

(** A tree without a file to scan under a cap of 1 KB: a symbolic link, a
    file of 2000 bytes and a file whose info cannot be read. *)
Definition nothing_to_scan : DirEntry :=
  dir "r"
    [ FileEntry (str "link")
        {| IsRegular := false; Info := inl 4; Bytes := inl (str "KEY=") |};
      dir "sub"
        [ FileEntry (str "big")
            {| IsRegular := true; Info := inl 2000;
               Bytes := inl (str "KEY=1") |};
          FileEntry (str "gone")
            {| IsRegular := true; Info := inr (ErrOS "stat");
               Bytes := inl (str "KEY=2") |} ] ].

Definition options_1KB : Options :=
  {| MaximumFileSize := 1; MultipleMatch := false; MaxMultiMatch := 3;
     MaxSecrets := 1000 |}.

(** The two layers of [two_layers], with a scan context that is stopped
    from the start. *)
Definition cancelled_layers (i : nat) : layerWorld :=
  {| createDirErr := createDirErr (two_layers i);
     extractErr := extractErr (two_layers i);
     targetRoot := targetRoot (two_layers i);
     checkpoint := fun _ => true |}.

(** The world of an image of two layers that is saved and extracted
    without error. *)
Definition two_layer_world : @EntryPoints.imageWorld :=
  {| EntryPoints.GetTmpDir := inl (str "/tmp/t");
     EntryPoints.saveErr := None;
     EntryPoints.untarErr := None;
     EntryPoints.manifest :=
       Decodes [manifest_of ["l0/layer.tar"; "l1/layer.tar"]];
     EntryPoints.layers := two_layers |}.

(** Lines as [readFile] writes them. *)
Definition plain_lines : list (list ascii) := [str "KEY=1"; str "b"].

(** A line of as many bytes as the token limit of the scanner. *)
Definition long_line : list ascii :=
  replicate (N.to_nat ReadFile.MaxScanTokenSize) "a"%char.

End Witnesses.

(** * Lemmas *)

(** ** Byte strings *)

Section GoStringFacts.

Implicit Types s k p suf : list ascii.

Lemma eqb_eq s k : eqb s k = true <-> s = k.
Proof. unfold eqb. apply bool_decide_eq_true. Qed.


Lemma eqb_neq s k : eqb s k = false <-> s <> k.
Proof. unfold eqb. apply bool_decide_eq_false. Qed.

Lemma HasSuffix_true s suf : HasSuffix s suf = true <-> exists k, s = k ++ suf.
Proof.
  unfold HasSuffix. rewrite andb_true_iff, Nat.leb_le, eqb_eq. split.
  - intros [Hlen Hdrop].
    exists (take (length s - length suf) s).
    transitivity (take (length s - length suf) s
                  ++ drop (length s - length suf) s).
    + by rewrite take_drop.
    + by rewrite Hdrop.
  - intros [k ->]. rewrite length_app. split; [lia|].
    replace (length k + length suf - length suf)%nat with (length k) by lia.
    by rewrite drop_app_length.
Qed.

Lemma HasSuffix_app k suf : HasSuffix (k ++ suf) suf = true.
Proof. apply HasSuffix_true. by exists k. Qed.

Lemma TrimSuffix_app k suf : TrimSuffix (k ++ suf) suf = k.
Proof.
  unfold TrimSuffix. rewrite HasSuffix_app, length_app.
  replace (length k + length suf - length suf)%nat with (length k) by lia.
  by rewrite take_app_length.
Qed.

Lemma TrimSuffix_cases s suf :
  (exists k, s = k ++ suf /\ TrimSuffix s suf = k)
  \/ (HasSuffix s suf = false /\ TrimSuffix s suf = s).
Proof.
  destruct (HasSuffix s suf) eqn:E.
  - left. apply HasSuffix_true in E as [k ->]. exists k.
    by rewrite TrimSuffix_app.
  - right. unfold TrimSuffix. by rewrite E.
Qed.

Lemma HasPrefix_true s p : HasPrefix s p = true <-> exists k, s = p ++ k.
Proof.
  unfold HasPrefix. rewrite andb_true_iff, Nat.leb_le, eqb_eq. split.
  - intros [Hlen Htake]. exists (drop (length p) s).
    transitivity (take (length p) s ++ drop (length p) s).
    + by rewrite take_drop.
    + by rewrite Htake.
  - intros [k ->]. rewrite length_app. split; [lia|].
    by rewrite take_app_length.
Qed.



End GoStringFacts.

(** ** The manifest *)

Section ManifestFacts.

Lemma deriveLayerIds_from (layers acc : list (list ascii)) :
  fold_left (fun layerIds layer => layerIds ++ [trimLayerId layer]) layers acc
  = acc ++ map trimLayerId layers.
Proof.
  revert acc. induction layers as [|l layers IH]; intros acc; simpl.
  - by rewrite app_nil_r.
  - rewrite IH. by rewrite <- app_assoc.
Qed.

Lemma deriveLayerIds_map (layers : list (list ascii)) :
  deriveLayerIds layers = map trimLayerId layers.
Proof. unfold deriveLayerIds. by rewrite deriveLayerIds_from. Qed.

(** A layer id that still ends in [.tar] comes from an entry that carried
    the suffix twice. *)
Lemma trimLayerId_still_tar (layer : list ascii) :
  HasSuffix (trimLayerId layer) (str ".tar") = true ->
  HasSuffix layer (str ".tar.tar") = true
  \/ HasSuffix layer (str ".tar/layer.tar") = true.
Proof.
  unfold trimLayerId. intros H.
  destruct (TrimSuffix_cases layer (str "/layer.tar"))
    as [(k & Hl & Hk)|[_ Hk]]; rewrite Hk in H.
  - destruct (TrimSuffix_cases k (str ".tar"))
      as [(k' & Hl' & Hk')|[Hno Hk']]; rewrite Hk' in H.
    + apply HasSuffix_true in H as [k'' Hk''].
      right. apply HasSuffix_true. exists (k'' ++ str ".tar").
      rewrite Hl, Hl', Hk''. by rewrite <- !app_assoc.
    + congruence.
  - destruct (TrimSuffix_cases layer (str ".tar"))
      as [(k' & Hl' & Hk')|[Hno Hk']]; rewrite Hk' in H.
    + apply HasSuffix_true in H as [k'' Hk''].
      left. apply HasSuffix_true. exists k''.
      rewrite Hl', Hk''. by rewrite <- !app_assoc.
    + congruence.
Qed.

(** A manifest that decodes to an array of length other than one: the
    returned error is the nil left by [Decode]. *)
Lemma extractDetailsFromManifest_len (manifest : list manifestItem) :
  length manifest <> 1%nat ->
  extractDetailsFromManifest (Decodes manifest) = (manifestItem_zero, None).
Proof.
  intros H. unfold extractDetailsFromManifest.
  destruct (length manifest =? 1)%nat eqn:E; [|done].
  apply Nat.eqb_eq in E. done.
Qed.

End ManifestFacts.

(** ** The writers *)

Section WriterFacts.
Import Jobs.

Variable P : list ascii.
Variable writeFails : SecretScanDoc -> bool.
Variable scan_id : list ascii.


Lemma scanDoc_ScanID (dir mnt : list ascii) (secret : SecretInfo) :
  ScanID (scanDoc dir mnt secret scan_id) = scan_id.
Proof. done. Qed.

(** When the two directories differ the secret is written as it came. *)
Lemma scanDoc_dirs_differ (dir mnt : list ascii) (secret : SecretInfo) :
  dir <> mnt -> Secret (scanDoc dir mnt secret scan_id) = secret.
Proof.
  intros H. unfold scanDoc.
  apply eqb_neq in H. by rewrite H.
Qed.


End WriterFacts.

(** ** [readFile] *)

Section ReadFileFacts.
Import ReadFile.

Implicit Types line data l : list ascii.

Lemma split_from_head (sep : ascii) data line :
  exists h t, split_from sep line data = h :: t
              /\ (length line <= length h)%nat.
Proof.
  revert line. induction data as [|c data IH]; intros line; simpl.
  - by exists line, [].
  - case_bool_decide.
    + by exists line, (split_from sep [] data).
    + destruct (IH (line ++ [c])) as (h & t & -> & Hlen).
      exists h, t. split; [done|]. rewrite length_app in Hlen. simpl in Hlen.
      lia.
Qed.

Lemma split_from_no_sep (sep : ascii) data line :
  sep ∉ line -> Forall (fun f => sep ∉ f) (split_from sep line data).
Proof.
  revert line. induction data as [|c data IH]; intros line Hline; simpl.
  - by constructor.
  - case_bool_decide.
    + constructor; [done|]. apply IH. apply not_elem_of_nil.
    + apply IH. rewrite elem_of_app, list_elem_of_singleton.
      intros [?|?]; [done | congruence].
Qed.

Lemma split_from_line (sep : ascii) l line rest :
  sep ∉ l ->
  split_from sep line (l ++ sep :: rest)
  = (line ++ l) :: split_from sep [] rest.
Proof.
  revert line. induction l as [|c l IH]; intros line Hl; simpl.
  - rewrite bool_decide_eq_true_2 by done. by rewrite app_nil_r.
  - rewrite bool_decide_eq_false_2.
    + rewrite IH; [by rewrite <- app_assoc|].
      intros ?. apply Hl. by right.
    + intros ->. apply Hl. by left.
Qed.

(** Splitting what [join_nonempty]-style joining made gives the lines
    back, and an empty field after the last newline. *)
Lemma Split_joined (ls : list (list ascii)) :
  Forall (fun l => newline ∉ l) ls ->
  Split (concat (map (fun l => l ++ [newline]) ls)) newline = ls ++ [[]].
Proof.
  unfold Split. induction 1 as [|l ls Hl _ IH]; [done|].
  simpl. rewrite <- app_assoc. simpl.
  rewrite split_from_line by done. by rewrite IH.
Qed.

Lemma dropCR_cases l : dropCR l = l \/ l = dropCR l ++ [carriage_return].
Proof.
  unfold dropCR. destruct (reverse l) as [|c before] eqn:E; [by left|].
  case_bool_decide; [|by left]. subst c. right.
  apply (f_equal reverse) in E.
  by rewrite reverse_involutive, reverse_cons in E.
Qed.

Lemma dropCR_no_newline l : newline ∉ l -> newline ∉ dropCR l.
Proof.
  intros H Hin. apply H.
  destruct (dropCR_cases l) as [E|E].
  - by rewrite E in Hin.
  - rewrite E. apply elem_of_app. by left.
Qed.

(** The tokens of the scanner are the fields between the newlines, each
    without a final carriage return; empty tokens apart, which [readFile]
    drops anyway. *)
Lemma scan_tokens_fields (maxTok : N) data line :
  Forall (fun l => N.of_nat (length l) < maxTok)
    (split_from newline line data) ->
  filter (fun l => l <> []) (scan_tokens maxTok line data)
  = filter (fun l => l <> []) (map dropCR (split_from newline line data)).
Proof.
  revert line. induction data as [|c data IH]; intros line Hshort; simpl.
  - destruct line as [|c line]; [done|]. done.
  - simpl in Hshort. case_bool_decide.
    + inversion Hshort; subst. simpl.
      rewrite !filter_cons. rewrite IH by done. done.
    + destruct (split_from_head newline data (line ++ [c]))
        as (h & t & Hsplit & Hlen).
      rewrite Hsplit in Hshort. inversion Hshort; subst.
      rewrite length_app in Hlen. simpl in Hlen.
      destruct (maxTok <=? N.of_nat (S (length line))) eqn:E.
      * apply N.leb_le in E. lia.
      * apply IH. by rewrite Hsplit.
Qed.

Lemma readFile_loop_from (tokens : list (list ascii)) (content : list ascii) :
  fold_left
    (fun content line =>
       if (length line =? 0)%nat then content
       else content ++ line ++ [newline])
    tokens content
  = content ++ join_nonempty tokens.
Proof.
  unfold join_nonempty.
  revert content. induction tokens as [|l tokens IH]; intros content; simpl.
  - by rewrite app_nil_r.
  - rewrite IH, filter_cons. destruct l as [|c l].
    + rewrite decide_False by (intros H; by apply H). done.
    + rewrite decide_True by done. simpl.
      rewrite <- !app_assoc. simpl. by rewrite <- ?app_assoc.
Qed.

Lemma readFile_loop_joined (tokens : list (list ascii)) :
  readFile_loop tokens = join_nonempty tokens.
Proof. unfold readFile_loop. by rewrite readFile_loop_from. Qed.

(** What [readFile] returns for a file of short lines. *)
Lemma readFile_short_lines (maxTok : N) data :
  short_lines maxTok data ->
  readFile_with maxTok (inl data)
  = (join_nonempty (map dropCR (Split data newline)), None).
Proof.
  intros H. unfold readFile_with. f_equal.
  rewrite readFile_loop_joined. unfold join_nonempty.
  by rewrite (scan_tokens_fields maxTok data []).
Qed.

Lemma join_nonempty_last (ls : list (list ascii)) :
  join_nonempty ls = [] \/ last (join_nonempty ls) = Some newline.
Proof.
  unfold join_nonempty.
  induction (filter (fun l => l <> []) ls) as [|l fs IH]; [by left|].
  right. simpl. destruct IH as [-> | IH].
  - rewrite app_nil_r. by rewrite last_snoc.
  - by rewrite last_app, IH.
Qed.

(** If the joined lines are the bytes of the file itself, the file has no
    empty line, and it is empty or ends in a newline. *)
Lemma joined_is_file data (ls : list (list ascii)) :
  Forall (fun l => newline ∉ l) ls ->
  join_nonempty ls = data ->
  ~ has_empty_line data /\ (data = [] \/ ~ lacks_trailing_newline data).
Proof.
  intros Hls Heq. split.
  - unfold has_empty_line. rewrite <- Heq. unfold join_nonempty.
    rewrite Split_joined.
    + rewrite removelast_last. rewrite list_elem_of_filter. by intros [? _].
    + apply Forall_forall. intros l Hl.
      apply list_elem_of_filter in Hl as [_ Hl].
      by apply (proj1 (Forall_forall _ _) Hls).
  - unfold lacks_trailing_newline. rewrite <- Heq.
    destruct (join_nonempty_last ls) as [E|E]; [by left|].
    right. by intros H.
Qed.

End ReadFileFacts.

(** ** The directory walk *)

(** Induction over a directory tree. *)
Section DirEntryInduction.
Import Scan.

Variable P : DirEntry -> Prop.
Hypothesis P_file : forall name f, P (FileEntry name f).
Hypothesis P_dir : forall name readDirErr entries,
  Forall P entries -> P (Directory name readDirErr entries).

Fixpoint DirEntry_tree_ind (d : DirEntry) : P d :=
  match d with
  | FileEntry name f => P_file name f
  | Directory name readDirErr entries =>
      P_dir name readDirErr entries
        ((fix all (ds : list DirEntry) : Forall P ds :=
            match ds with
            | [] => List.Forall_nil P
            | d1 :: rest =>
                List.Forall_cons P d1 rest (DirEntry_tree_ind d1) (all rest)
            end) entries)
  end.

End DirEntryInduction.

Section WalkFacts.
Import Scan.

Context {SecretFound : Type}.

Local Definition callback : Type :=
  list ascii -> option DirEntry -> option error ->
  @walkState SecretFound -> @walkState SecretFound * option error.

(** A walk keeps [Inv] as long as it goes on, and ends in [Fin] when an
    error other than [SkipDir] ends it, if its callback does. *)
Section Invariant.

Variable fn : callback.
Variable Inv : @walkState SecretFound -> Prop.
Variable Fin : @walkState SecretFound -> error -> Prop.

Local Abbreviation walk_post := (walk_post Inv Fin).

Hypothesis fn_post : forall path f err st, Inv st -> walk_post (fn path f err st).

Lemma after_dir_post st e :
  walk_post (st, Some e) -> walk_post (st, after_dir e).
Proof.
  unfold walk_post, after_dir. simpl.
  case_bool_decide; simpl; [done|].
  by rewrite bool_decide_eq_false_2.
Qed.

Lemma walkDir_post d : forall path st, Inv st -> walk_post (walkDir fn path d st).
Proof.
  induction d as [name f|name readDirErr entries IH] using DirEntry_tree_ind;
    intros path st Hst.
  - simpl. by apply fn_post.
  - simpl.
    pose proof (fn_post path (Some (Directory name readDirErr entries))
                  None st Hst) as H1.
    destruct (fn path (Some (Directory name readDirErr entries)) None st)
      as [st1 [e|]].
    { by apply after_dir_post. }
    assert (exists st2, Inv st2 /\
      (match readDirErr with
       | Some msg =>
           match fn path (Some (Directory name readDirErr entries))
                   (Some (ErrOS msg)) st1 with
           | (s, Some e) => walk_post (s, after_dir e)
           | (s, None) => s = st2
           end
       | None => st1 = st2
       end)) as Hrd.
    { destruct readDirErr as [msg|]; [|by exists st1].
      pose proof (fn_post path (Some (Directory name (Some msg) entries))
                    (Some (ErrOS msg)) st1 H1) as H2.
      destruct (fn path (Some (Directory name (Some msg) entries))
                  (Some (ErrOS msg)) st1) as [s [e|]].
      - exists st1. split; [done|]. by apply after_dir_post.
      - by exists s. }
    destruct Hrd as (st2 & Hst2 & Hrd).
    assert (forall s, Inv s ->
      walk_post
        ((fix loop (ds : list DirEntry) (s : walkState)
            : walkState * option error :=
            match ds with
            | [] => (s, None)
            | d1 :: rest =>
                match walkDir fn (Filepath.Join2 path (entry_Name d1)) d1 s with
                | (s', Some e) =>
                    if bool_decide (e = SkipDir) then (s', None) else (s', Some e)
                | (s', None) => loop rest s'
                end
            end) entries s)) as Hloop.
    { clear Hrd Hst2 st2 H1 st1 Hst st.
      induction IH as [|d1 rest Hd1 _ IHrest]; intros s Hs; [done|].
      specialize (Hd1 (Filepath.Join2 path (entry_Name d1)) s Hs).
      unfold walk_post in Hd1.
      destruct (walkDir fn (Filepath.Join2 path (entry_Name d1)) d1 s)
        as [s' [e|]]; simpl in Hd1.
      - case_bool_decide; [done|].
        unfold walk_post. simpl. by rewrite bool_decide_eq_false_2.
      - by apply IHrest. }
    destruct readDirErr as [msg|].
    + destruct (fn path (Some (Directory name (Some msg) entries))
                  (Some (ErrOS msg)) st1) as [s [e|]]; [done|].
      subst s. by apply Hloop.
    + subst st2. by apply Hloop.
Qed.

Lemma WalkDir_post path root st :
  Inv st ->
  match WalkDir fn path root st with
  | (st', None) => Inv st'
  | (st', Some e) => Fin st' e
  end.
Proof.
  intros Hst. unfold WalkDir.
  assert (walk_post
            match root with
            | inr msg => fn path None (Some (ErrOS msg)) st
            | inl d => walkDir fn path d st
            end) as H.
  { destruct root; [by apply walkDir_post | by apply fn_post]. }
  destruct (match root with
            | inr msg => fn path None (Some (ErrOS msg)) st
            | inl d => walkDir fn path d st
            end) as [st' [e|]]; [|done].
  unfold walk_post, after_dir in *. simpl in H.
  by case_bool_decide.
Qed.

End Invariant.

(** Two callbacks that agree everywhere give the same walk. *)
Lemma walkDir_ext (fn1 fn2 : callback) :
  (forall path f err st, fn1 path f err st = fn2 path f err st) ->
  forall d path st, walkDir fn1 path d st = walkDir fn2 path d st.
Proof.
  intros Hfn.
  induction d as [name f|name readDirErr entries IH] using DirEntry_tree_ind;
    intros path st; simpl.
  - apply Hfn.
  - rewrite !Hfn.
    assert (forall s,
      (fix loop (ds : list DirEntry) (s : walkState)
         : walkState * option error :=
         match ds with
         | [] => (s, None)
         | d1 :: rest =>
             match walkDir fn1 (Filepath.Join2 path (entry_Name d1)) d1 s with
             | (s', Some e) =>
                 if bool_decide (e = SkipDir) then (s', None) else (s', Some e)
             | (s', None) => loop rest s'
             end
         end) entries s
      = (fix loop (ds : list DirEntry) (s : walkState)
           : walkState * option error :=
           match ds with
           | [] => (s, None)
           | d1 :: rest =>
               match walkDir fn2 (Filepath.Join2 path (entry_Name d1)) d1 s with
               | (s', Some e) =>
                   if bool_decide (e = SkipDir) then (s', None) else (s', Some e)
               | (s', None) => loop rest s'
               end
           end) entries s) as Hloop.
    { induction IH as [|d1 rest Hd1 _ IHrest]; intros s; [done|].
      rewrite Hd1.
      destruct (walkDir fn2 (Filepath.Join2 path (entry_Name d1)) d1 s)
        as [s' [e|]]; [done|]. apply IHrest. }
    destruct (fn2 path (Some (Directory name readDirErr entries)) None st)
      as [st1 [e|]]; [done|].
    destruct readDirErr as [msg|]; [|apply Hloop].
    rewrite Hfn.
    destruct (fn2 path (Some (Directory name (Some msg) entries))
                (Some (ErrOS msg)) st1) as [st2 [e|]]; [done|].
    apply Hloop.
Qed.

Lemma WalkDir_ext (fn1 fn2 : callback) :
  (forall path f err st, fn1 path f err st = fn2 path f err st) ->
  forall path root st, WalkDir fn1 path root st = WalkDir fn2 path root st.
Proof.
  intros Hfn path root st. unfold WalkDir.
  destruct root; [by rewrite (walkDir_ext fn1 fn2 Hfn) | by rewrite Hfn].
Qed.

End WalkFacts.

(** ** [ScanSecretsInDir] and [ScanSecretsInDirStream] *)

Section ScanFacts.
Import Scan.

Context {SecretFound : Type}.
Variable X : @Externals SecretFound.
Variable opts : Options.

Implicit Types st : @walkState SecretFound.
Implicit Types evs : list (@event SecretFound).

Lemma emit_app (sf : surface) (found secrets : list SecretFound) :
  emit sf found secrets = found ++ secrets.
Proof.
  destruct sf; [done|]. simpl. revert found.
  induction secrets as [|s secrets IH]; intros found; simpl.
  - by rewrite app_nil_r.
  - rewrite IH. by rewrite <- app_assoc.
Qed.

Lemma emitted_app evs1 evs2 : emitted (evs1 ++ evs2) = emitted evs1 ++ emitted evs2.
Proof.
  induction evs1 as [|[stopped|s] evs1 IH]; simpl; [done|done|].
  by rewrite IH.
Qed.

Lemma emitted_Emitted (secrets : list SecretFound) :
  emitted (map Emitted secrets) = secrets.
Proof. induction secrets as [|s secrets IH]; simpl; [done|]. by rewrite IH. Qed.

Lemma running_ended st e : running st -> ended st e.
Proof. intros [? ?]. split; [done | by left]. Qed.

Lemma running_emit (sf : surface) (secrets : list SecretFound) n m st :
  running st -> running (emit_state sf secrets n m st).
Proof.
  intros [Hf Hc]. split; simpl.
  - by rewrite emit_app, emitted_app, emitted_Emitted, Hf.
  - rewrite elem_of_app. intros [?|Hin]; [done|].
    apply list_elem_of_fmap in Hin as (s & Hs & _). discriminate.
Qed.

Lemma walkFn_post (sf : surface) (Checkpoint : nat -> bool)
    (layer baseDir : list ascii) path f err st :
  running st ->
  walk_post running ended (walkFn X opts sf Checkpoint layer baseDir path f err st).
Proof.
  intros Hrun. unfold walkFn.
  destruct err as [e|].
  { unfold walk_post. simpl. case_bool_decide; [done|].
    by apply running_ended. }
  destruct (Checkpoint (checkpoints st)) eqn:Hck.
  { unfold walk_post. simpl. destruct Hrun as [Hf Hc]. split; simpl.
    - by rewrite emitted_app, app_nil_r.
    - right. by exists (events st). }
  set (st0 := {| found := found st; numSecrets := numSecrets st;
                 matchedRuleSet := matchedRuleSet st;
                 checkpoints := S (checkpoints st);
                 events := events st ++ [Checkpointed false] |}).
  assert (running st0) as Hrun0.
  { destruct Hrun as [Hf Hc]. split; simpl.
    - by rewrite emitted_app, app_nil_r.
    - rewrite elem_of_app, list_elem_of_singleton.
      intros [?|?]; [done | discriminate]. }
  destruct f as [[name fnode|name rd entries]|]; [| |done].
  - destruct (negb (IsRegular fnode)); [done|].
    destruct (Info fnode) as [size|]; [|done].
    destruct (_ || _); [done|].
    destruct (scanFile _ _ _ _ _ _ _ _) as [[secrets err] [n1 m1]].
    destruct (MatchSimpleSignatures _ _ _ _ _ _) as [secrets2 n2].
    assert (running
              (emit_state sf secrets2 n2 m1
                 match err with
                 | Some _ => emit_state sf [] n1 m1 st0
                 | None => emit_state sf secrets n1 m1 st0
                 end)) as Hrun2.
    { apply running_emit. destruct err; by apply running_emit. }
    destruct (MaxSecrets opts <=? n2); [|done].
    unfold walk_post. simpl. by apply running_ended.
  - destruct (IsSkippableDir _ _ _); done.
Qed.

Lemma walkState_init_running : running (@walkState_init SecretFound).
Proof. split; [done|]. apply not_elem_of_nil. Qed.

(** The state in which a walk ends. *)
Lemma scanWalk_ended (sf : surface) (Checkpoint : nat -> bool)
    (layer baseDir fullDir : list ascii) (root : DirEntry + string) :
  ended (scanWalk X opts sf Checkpoint layer baseDir fullDir root).1
        maxSecretsExceeded.
Proof.
  unfold scanWalk.
  pose proof (WalkDir_post (walkFn X opts sf Checkpoint layer baseDir)
                running ended
                (walkFn_post sf Checkpoint layer baseDir)
                fullDir root walkState_init walkState_init_running) as H.
  destruct (WalkDir _ _ _ _) as [st' [e|]]; simpl.
  - destruct H as [? ?]. by split.
  - by apply running_ended.
Qed.

(** Nothing follows a checkpoint that stopped the scan. *)
Lemma stopped_is_last evs pre post :
  (Checkpointed true ∉ evs
   \/ exists pre', evs = pre' ++ [Checkpointed true]
                   /\ Checkpointed true ∉ pre') ->
  evs = pre ++ Checkpointed true :: post -> post = [].
Proof.
  intros [Hno|(pre' & Heq & Hno)] Hsplit.
  - exfalso. apply Hno. rewrite Hsplit.
    apply elem_of_app. right. by left.
  - rewrite Heq in Hsplit.
    destruct post as [|ev post _] using rev_ind; [done|].
    exfalso. apply Hno.
    change (pre ++ Checkpointed true :: post ++ [ev])
      with (pre ++ (Checkpointed true :: post) ++ [ev]) in Hsplit.
    rewrite app_assoc in Hsplit.
    apply app_inj_tail in Hsplit as [-> _].
    apply elem_of_app. right. by left.
Qed.

(** A scan that [Checkpoint] stops at its first call returns nothing; in
    an image scan this is every layer that follows a cancellation. *)
Lemma ScanSecretsInDir_stopped (Checkpoint : nat -> bool)
    (layer baseDir fullDir : list ascii) (root : DirEntry + string) :
  Checkpoint 0%nat = true ->
  ScanSecretsInDir X opts Checkpoint layer baseDir fullDir root = ([], None).
Proof.
  intros H. unfold ScanSecretsInDir, scanWalk, WalkDir.
  destruct root as [[name f|name rd entries]|msg]; simpl; [| |done];
    by rewrite H.
Qed.

(** Both surfaces run the same walk. *)
Lemma scanWalk_surface (Checkpoint : nat -> bool)
    (layer baseDir fullDir : list ascii) (root : DirEntry + string) :
  scanWalk X opts Stream Checkpoint layer baseDir fullDir root
  = scanWalk X opts Batch Checkpoint layer baseDir fullDir root.
Proof.
  unfold scanWalk. apply WalkDir_ext.
  assert (forall secrets n m st,
            emit_state Stream secrets n m st = emit_state Batch secrets n m st)
    as Hemit.
  { intros. unfold emit_state. by rewrite !emit_app. }
  intros path f err st. unfold walkFn.
  destruct err as [e|]; [done|].
  destruct (Checkpoint (checkpoints st)); [done|].
  destruct f as [[name fnode|name rd entries]|]; [|done|done].
  destruct (negb (IsRegular fnode)); [done|].
  destruct (Info fnode) as [size|]; [|done].
  destruct (_ || _); [done|].
  destruct (scanFile _ _ _ _ _ _ _ _) as [[secrets err] [n1 m1]].
  destruct (MatchSimpleSignatures _ _ _ _ _ _) as [secrets2 n2].
  rewrite ?Hemit. by destruct err; rewrite ?Hemit.
Qed.

(** The stream surface of a directory scan sends what the batch surface
    returns. *)
Lemma ScanSecretsInDirStream_batch (Checkpoint : nat -> bool)
    (layer baseDir fullDir : list ascii) (root : DirEntry + string) :
  ScanSecretsInDirStream X opts Checkpoint layer baseDir fullDir root
  = (Some (ScanSecretsInDir X opts Checkpoint layer baseDir fullDir root).1,
     None).
Proof.
  unfold ScanSecretsInDirStream, ScanSecretsInDir.
  rewrite scanWalk_surface.
  by destruct (scanWalk _ _ _ _ _ _ _ _).
Qed.

End ScanFacts.

(** ** What holds around the departures *)

(** The walk never makes a new rule-hit map: for a file that is scanned,
    the content matcher receives the map of the walk as the files before
    left it, and the walk keeps the map as the matcher leaves it. *)
Lemma walkFn_hands_on_the_map {SecretFound : Type}
    (X : @Scan.Externals SecretFound) (opts : Scan.Options)
    (sf : Scan.surface) (Checkpoint : nat -> bool)
    (layer baseDir path name : list ascii) (f : Scan.fileNode)
    (size : N) (bytes : list ascii) (st : Scan.walkState) :
  Checkpoint (Scan.checkpoints st) = false ->
  Scan.IsRegular f = true ->
  Scan.Info f = inl size ->
  (Scan.umul (Scan.MaximumFileSize opts) 1024 <? size)
  || Scan.IsSkippableFileExtension X path = false ->
  Scan.Bytes f = inl bytes ->
  let file := Scan.NewMatchFile X path in
  let relPath :=
    match Scan.Rel X (Filepath.Join2 baseDir layer) (Scan.Path file) with
    | inl r => r
    | inr _ => Scan.Path file
    end in
  Scan.matchedRuleSet
    (Scan.walkFn X opts sf Checkpoint layer baseDir path
       (Some (Scan.FileEntry name f)) None st).1
  = (Scan.MatchPatternSignatures X (ReadFile.readFile (inl bytes)).1
       relPath (Scan.Filename file) (Scan.Extension file) layer
       (Scan.numSecrets st) (Scan.matchedRuleSet st)).2.2.
Proof.
  intros Hck Hreg Hinfo Hsize Hbytes. cbn zeta.
  unfold Scan.walkFn, Scan.scanFile.
  rewrite Hck, Hreg, Hinfo, Hsize, Hbytes. simpl.
  destruct (Scan.MatchPatternSignatures X _ _ _ _ _ _ _)
    as [[secrets [err|]] [n1 m1]]; simpl;
    destruct (Scan.MatchSimpleSignatures X _ _ _ _ _) as [secrets2 n2];
    by destruct (Scan.MaxSecrets opts <=? n2).
Qed.

(** With the matchers of the spec, one directory walk stays within
    [max-secrets]. *)
Section WalkCap.
Import Scan.

Variable opts : Options.
Variable catalog : list Signature.Rule.
Hypothesis max_is_uint : MaxSecrets opts < uint_size.

Lemma report_cap rule_id mk offsets secrets n m :
  n <= MaxSecrets opts ->
  exists new n' m',
    Signature.report opts rule_id mk offsets secrets n m
    = (secrets ++ new, (n', m'))
    /\ n' = n + N.of_nat (length new) /\ n' <= MaxSecrets opts.
Proof.
  revert secrets n m.
  induction offsets as [|o offsets IH]; intros secrets n m Hn; simpl.
  - exists [], n, m. rewrite app_nil_r. simpl. repeat split; lia.
  - destruct (MaxSecrets opts <=? n) eqn:Hcap.
    { exists [], n, m. rewrite app_nil_r. simpl. repeat split; lia. }
    destruct (Signature.multiplicity opts <=? _).
    { exists [], n, m. rewrite app_nil_r. simpl. repeat split; lia. }
    apply N.leb_gt in Hcap.
    assert (uadd n 1 = n + 1) as ->.
    { unfold uadd. apply N.mod_small. lia. }
    destruct (IH (secrets ++ [mk o]) (n + 1)
                (<[rule_id := uadd (default 0 (m !! rule_id)) 1]> m))
      as (new & n' & m' & Heq & Hn' & Hle); [lia|].
    exists (mk o :: new), n', m'. rewrite Heq, <- app_assoc. simpl.
    repeat split; lia.
Qed.

Lemma MatchPatternSignatures_cap contents_ relPath fileName ext layer n m :
  n <= MaxSecrets opts ->
  exists new n' m',
    Signature.MatchPatternSignatures opts catalog contents_ relPath fileName
      ext layer n m = ((new, None), (n', m'))
    /\ n' = n + N.of_nat (length new) /\ n' <= MaxSecrets opts.
Proof.
  intros Hn. unfold Signature.MatchPatternSignatures.
  assert (forall rules secrets n m, n <= MaxSecrets opts ->
    exists new n' m',
      fold_left
        (fun '(secrets, (n, m)) r =>
           Signature.report opts (Signature.id r)
             (fun o => {| Signature.RuleID := Signature.id r;
                          Signature.LayerID := layer;
                          Signature.CompleteFilename := relPath;
                          Signature.MatchFromByte := o |})
             (Signature.signature r contents_) secrets n m)
        rules (secrets, (n, m))
      = (secrets ++ new, (n', m'))
      /\ n' = n + N.of_nat (length new) /\ n' <= MaxSecrets opts) as Hfold.
  { induction rules as [|r rules IH]; intros secrets n0 m0 Hn0; simpl.
    - exists [], n0, m0. rewrite app_nil_r. simpl. repeat split; lia.
    - destruct (report_cap (Signature.id r)
                  (fun o => {| Signature.RuleID := Signature.id r;
                               Signature.LayerID := layer;
                               Signature.CompleteFilename := relPath;
                               Signature.MatchFromByte := o |})
                  (Signature.signature r contents_) secrets n0 m0 Hn0)
        as (new1 & n1 & m1 & -> & Hn1 & Hle1).
      destruct (IH (secrets ++ new1) n1 m1 Hle1)
        as (new2 & n2 & m2 & -> & Hn2 & Hle2).
      exists (new1 ++ new2), n2, m2. rewrite <- app_assoc, length_app.
      repeat split; lia. }
  destruct (Hfold (filter (fun r => Signature.is_contents r = true) catalog)
              [] n m Hn) as (new & n' & m' & -> & Hn' & Hle).
  by exists new, n', m'.
Qed.

Lemma MatchSimpleSignatures_cap relPath fileName ext layer n :
  n <= MaxSecrets opts ->
  exists new n',
    Signature.MatchSimpleSignatures opts catalog relPath fileName ext layer n
    = (new, n')
    /\ n' = n + N.of_nat (length new) /\ n' <= MaxSecrets opts.
Proof.
  intros Hn. unfold Signature.MatchSimpleSignatures.
  generalize (filter (fun r => Signature.is_contents r = false) catalog).
  intros rules.
  enough (forall secrets n, n <= MaxSecrets opts ->
    exists new n',
      fold_left
        (fun '(secrets, n) r =>
           let target :=
             match Signature.rule_part r with
             | Signature.filename => fileName
             | Signature.extension => ext
             | _ => relPath
             end in
           match Signature.signature r target with
           | [] => (secrets, n)
           | _ :: _ =>
               if MaxSecrets opts <=? n then (secrets, n)
               else (secrets ++ [{| Signature.RuleID := Signature.id r;
                                    Signature.LayerID := layer;
                                    Signature.CompleteFilename := relPath;
                                    Signature.MatchFromByte := 0 |}],
                     uadd n 1)
           end)
        rules (secrets, n)
      = (secrets ++ new, n')
      /\ n' = n + N.of_nat (length new) /\ n' <= MaxSecrets opts) as Hfold.
  { destruct (Hfold [] n Hn) as (new & n' & Heq & ? & ?).
    exists new, n'. split; [exact Heq | done]. }
  induction rules as [|r rules IH]; intros secrets n0 Hn0; simpl.
  - exists [], n0. rewrite app_nil_r. simpl. repeat split; lia.
  - destruct (Signature.signature r _); [by apply IH|].
    destruct (MaxSecrets opts <=? n0) eqn:Hcap; [by apply IH|].
    apply N.leb_gt in Hcap.
    assert (uadd n0 1 = n0 + 1) as ->.
    { unfold uadd. apply N.mod_small. lia. }
    destruct (IH (secrets ++ [{| Signature.RuleID := Signature.id r;
                                 Signature.LayerID := layer;
                                 Signature.CompleteFilename := relPath;
                                 Signature.MatchFromByte := 0 |}])
                (n0 + 1)) as (new & n' & Heq & Hn' & Hle); [lia|].
    eexists (_ :: new), n'. split.
    + etrans; [exact Heq|]. by rewrite <- app_assoc.
    + simpl. lia.
Qed.

Variable IsSkippableDir : list ascii -> list ascii -> bool.
Variable IsSkippableFileExtension : list ascii -> bool.
Variable NewMatchFile : list ascii -> MatchFile.
Variable Rel : list ascii -> list ascii -> list ascii + error.

Let X := Signature.externals opts catalog IsSkippableDir
           IsSkippableFileExtension NewMatchFile Rel.

Local Abbreviation counted := (Signature.counted opts).
Local Abbreviation within_cap := (Signature.within_cap opts).

Lemma counted_within_cap st e : counted st -> within_cap st e.
Proof. unfold counted, within_cap. lia. Qed.

Lemma walkFn_cap (sf : surface) (Checkpoint : nat -> bool)
    (layer baseDir : list ascii) path f err st :
  counted st ->
  walk_post counted within_cap
    (walkFn X opts sf Checkpoint layer baseDir path f err st).
Proof.
  intros Hst. unfold walkFn.
  destruct err as [e|].
  { unfold walk_post. simpl. case_bool_decide; [done|].
    by apply counted_within_cap. }
  destruct (Checkpoint (checkpoints st)).
  { unfold walk_post. simpl. by apply (counted_within_cap _ ErrCheckpoint). }
  destruct f as [[name fnode|name rd entries]|]; [| |done].
  2: { destruct (Scan.IsSkippableDir X _ _); done. }
  destruct (negb (IsRegular fnode)); [done|].
  destruct (Info fnode) as [size|]; [|done].
  destruct (_ || _); [done|].
  destruct Hst as [Hcount Hle].
  unfold scanFile. simpl.
  destruct (ReadFile.readFile (Bytes fnode)) as [contents_ [rerr|]]; simpl.
  - destruct (MatchSimpleSignatures_cap
                match Rel (Filepath.Join2 baseDir layer)
                        (Path (NewMatchFile path)) with
                | inl r => r
                | inr _ => Path (NewMatchFile path)
                end
                (Filename (NewMatchFile path)) (Extension (NewMatchFile path))
                layer (numSecrets st) Hle)
      as (new2 & n2 & -> & Hn2 & Hle2).
    assert (n2 = N.of_nat (length (emit sf (emit sf (found st) []) new2)))
      as Hlen.
    { rewrite !emit_app, !length_app. simpl. lia. }
    destruct (MaxSecrets opts <=? n2); unfold walk_post; simpl.
    + unfold within_cap. simpl. lia.
    + split; simpl; [done | lia].
  - destruct (MatchPatternSignatures_cap contents_
                match Rel (Filepath.Join2 baseDir layer)
                        (Path (NewMatchFile path)) with
                | inl r => r
                | inr _ => Path (NewMatchFile path)
                end
                (Filename (NewMatchFile path)) (Extension (NewMatchFile path))
                layer (numSecrets st) (matchedRuleSet st) Hle)
      as (new1 & n1 & m1 & -> & Hn1 & Hle1).
    destruct (MatchSimpleSignatures_cap
                match Rel (Filepath.Join2 baseDir layer)
                        (Path (NewMatchFile path)) with
                | inl r => r
                | inr _ => Path (NewMatchFile path)
                end
                (Filename (NewMatchFile path)) (Extension (NewMatchFile path))
                layer n1 Hle1)
      as (new2 & n2 & -> & Hn2 & Hle2).
    assert (n2 = N.of_nat (length (emit sf (emit sf (found st) new1) new2)))
      as Hlen.
    { rewrite !emit_app, !length_app. lia. }
    destruct (MaxSecrets opts <=? n2); unfold walk_post; simpl.
    + unfold within_cap. simpl. lia.
    + split; simpl; [done | lia].
Qed.

(** A walk, on either surface, returns at most [max-secrets] findings. *)
Lemma scanWalk_within_cap (sf : surface) (Checkpoint : nat -> bool)
    (layer baseDir fullDir : list ascii) (root : DirEntry + string) :
  N.of_nat
    (length (found (scanWalk X opts sf Checkpoint layer baseDir fullDir
                      root).1))
  <= MaxSecrets opts.
Proof.
  unfold scanWalk.
  assert (counted (@walkState_init Signature.Finding)) as H0.
  { split; simpl; lia. }
  pose proof (WalkDir_post (walkFn X opts sf Checkpoint layer baseDir)
                counted within_cap (walkFn_cap sf Checkpoint layer baseDir)
                fullDir root walkState_init H0) as H.
  destruct (WalkDir _ _ _ _) as [st' [e|]]; simpl.
  - exact H.
  - by apply (counted_within_cap _ maxSecretsExceeded).
Qed.

End WalkCap.

(** When no layer fails to be created or extracted, the stream surface of
    an image scan sends what the batch surface returns. *)
Section ImageSurfaces.
Import Scan.

Context {SecretFound : Type}.
Variable X : @Externals SecretFound.
Variable opts : Options.
Variable world : nat -> layerWorld.
Hypothesis no_createDirErr : forall i, createDirErr (world i) = None.
Hypothesis no_extractErr : forall i, extractErr (world i) = None.

Lemma ScanSecretsInDir_nil_error (Checkpoint : nat -> bool)
    (layer baseDir fullDir : list ascii) (root : DirEntry + string) :
  (ScanSecretsInDir X opts Checkpoint layer baseDir fullDir root).2 = None.
Proof.
  unfold ScanSecretsInDir. by destruct (scanWalk _ _ _ _ _ _ _ _).
Qed.

Lemma processImageLayersStream_loop_batch
    (imageManifestPath extractPath : list ascii)
    (layerIDs layerPaths : list (list ascii)) (todo : list nat)
    (imageScan : Image.ImageScan) (res : list SecretFound) :
  processImageLayersStream_loop X opts world imageManifestPath extractPath
    layerIDs layerPaths todo imageScan res
  = match processImageLayers_loop X opts world imageManifestPath extractPath
            layerIDs layerPaths todo imageScan res with
    | Returns (imageScan', (found, _)) => Returns (imageScan', found)
    | Panics => Panics
    end.
Proof.
  revert imageScan res.
  induction todo as [|i todo IH]; intros imageScan res; simpl; [done|].
  destruct (layerPaths !! i) as [layerPath|]; [|done].
  destruct (layerIDs !! i) as [layerID|]; [|done].
  rewrite no_createDirErr, no_extractErr.
  pose proof (ScanSecretsInDir_nil_error (checkpoint (world i)) layerID
                extractPath (Filepath.Join2 extractPath layerID)
                (targetRoot (world i))) as Hnil.
  destruct (ScanSecretsInDir X opts _ _ _ _ _) as [secrets err].
  simpl in Hnil. subst err. simpl.
  change (fold_left (fun res s => res ++ [s]) secrets res)
    with (emit Stream res secrets).
  rewrite emit_app.
  destruct (MaxSecrets opts <=? _); [done|]. apply IH.
Qed.

Lemma processImageLayersStream_batch (imageScan : Image.ImageScan)
    (imageManifestPath : list ascii) :
  processImageLayersStream X opts world imageScan imageManifestPath
  = match processImageLayers X opts world imageScan imageManifestPath with
    | Returns (imageScan', (found, _)) =>
        Returns (imageScan', (Some found, None))
    | Panics => Panics
    end.
Proof.
  unfold processImageLayersStream, processImageLayers.
  rewrite processImageLayersStream_loop_batch.
  by destruct (processImageLayers_loop _ _ _ _ _ _ _ _ _ _)
    as [[imageScan' [found err]]|].
Qed.

End ImageSurfaces.

(** ** [untar]: rooted member names stay inside the target *)

Section CleanFacts.
Import Filepath.

Implicit Types e p : list ascii.
Implicit Types es out : list (list ascii).

Lemma clean_elem_normal rooted out e :
  normal e -> clean_elem rooted out e = e :: out.
Proof.
  intros (H1 & H2 & H3 & _). unfold clean_elem.
  apply eqb_neq in H1, H2, H3. by rewrite H1, H2, H3.
Qed.

Lemma fold_clean_normal rooted es out :
  Forall normal es ->
  fold_left (clean_elem rooted) es out = rev es ++ out.
Proof.
  intros H. revert out. induction H as [|e es He _ IH]; intros out; [done|].
  simpl. rewrite clean_elem_normal by done. rewrite IH.
  by rewrite <- app_assoc.
Qed.

Lemma clean_elem_rooted_normal out e :
  Forall normal out -> Separator ∉ e -> Forall normal (clean_elem true out e).
Proof.
  intros Hout He. unfold clean_elem.
  destruct (eqb e []) eqn:E1; [done|].
  destruct (eqb e (str ".")) eqn:E2; [done|]. cbn [orb].
  destruct (eqb e (str "..")) eqn:E3.
  - destruct out as [|top below]; [by constructor|].
    inversion Hout as [|? ? Htop Hbelow]; subst.
    destruct (eqb top (str "..")) eqn:E4; [|done].
    apply eqb_eq in E4. by destruct Htop as (_ & _ & ? & _).
  - constructor; [|done].
    apply eqb_neq in E1, E2, E3. done.
Qed.

Lemma fold_clean_rooted_normal es out :
  Forall normal out -> Forall (fun e => Separator ∉ e) es ->
  Forall normal (fold_left (clean_elem true) es out).
Proof.
  intros Hout Hes. revert out Hout.
  induction Hes as [|e es He _ IH]; intros out Hout; [done|].
  simpl. apply IH. by apply clean_elem_rooted_normal.
Qed.

Lemma IsAbs_cons p : IsAbs (Separator :: p) = true.
Proof. apply HasPrefix_true. by exists p. Qed.

(** The clean form of a rooted path. *)
Lemma Clean_rooted p :
  IsAbs p = true -> exists out, Forall normal out /\ Clean p = rooted_clean out.
Proof.
  intros H. unfold Clean. rewrite H.
  exists (rev (fold_left (clean_elem true) (Split p Separator) [])).
  split; [|done]. apply List.Forall_rev.
  apply fold_clean_rooted_normal; [done|].
  apply split_from_no_sep, not_elem_of_nil.
Qed.

Lemma split_from_app_sep (sep : ascii) a b acc :
  split_from sep acc (a ++ sep :: b)
  = split_from sep acc a ++ split_from sep [] b.
Proof.
  revert acc. induction a as [|c a IH]; intros acc; simpl.
  - by rewrite bool_decide_eq_true_2.
  - case_bool_decide; simpl; by rewrite IH.
Qed.

Lemma split_from_sep_free (sep : ascii) e acc :
  sep ∉ e -> split_from sep acc e = [acc ++ e].
Proof.
  revert acc. induction e as [|c e IH]; intros acc He; simpl.
  - by rewrite app_nil_r.
  - rewrite bool_decide_eq_false_2.
    + rewrite IH; [by rewrite <- app_assoc|]. intros ?. apply He. by right.
    + intros ->. apply He. by left.
Qed.

Lemma Split_Join es :
  Forall (fun e => Separator ∉ e) es -> es <> [] ->
  Split (Join es [Separator]) Separator = es.
Proof.
  unfold Split. induction 1 as [|e es He Hes IH]; intros Hne; [done|].
  destruct es as [|e' es].
  - simpl. by rewrite split_from_sep_free.
  - change (Join (e :: e' :: es) [Separator])
      with (e ++ Separator :: Join (e' :: es) [Separator]).
    rewrite split_from_app_sep, split_from_sep_free by done.
    simpl app. f_equal. by apply IH.
Qed.

Lemma normal_sep_free es : Forall normal es -> Forall (fun e => Separator ∉ e) es.
Proof.
  intros H. eapply Forall_impl; [exact H|]. by intros e (_ & _ & _ & ?).
Qed.

Lemma Join_nonempty es : Forall normal es -> es <> [] -> Join es [Separator] <> [].
Proof.
  intros H Hne. destruct H as [|e es (He & _) _]; [done|].
  destruct es; simpl; [done|]. by destruct e.
Qed.

(** [Clean] skips the empty elements and [.] and pushes what is normal. *)
Lemma fold_clean_split_rooted_clean out acc :
  Forall normal out ->
  fold_left (clean_elem true) (Split (rooted_clean out) Separator) acc
  = rev out ++ acc.
Proof.
  intros Hout. unfold rooted_clean, Split. simpl.
  change (clean_elem true acc []) with acc.
  destruct out as [|e out]; [done|].
  fold (Split (Join (e :: out) [Separator]) Separator).
  rewrite Split_Join by (by apply normal_sep_free || done).
  by apply fold_clean_normal.
Qed.

(** Joining a rooted clean path with normal elements appends them. *)
Lemma Clean_rooted_join out es :
  Forall normal out -> Forall normal es ->
  Clean (rooted_clean out ++ Separator :: Join es [Separator])
  = rooted_clean (out ++ es).
Proof.
  intros Hout Hes. unfold Clean.
  change (rooted_clean out ++ Separator :: Join es [Separator])
    with (Separator :: (Join out [Separator]
                        ++ Separator :: Join es [Separator])).
  rewrite IsAbs_cons.
  change (Separator :: (Join out [Separator]
                        ++ Separator :: Join es [Separator]))
    with (rooted_clean out ++ Separator :: Join es [Separator]).
  unfold Split. rewrite split_from_app_sep, fold_left_app.
  fold (Split (rooted_clean out) Separator).
  rewrite fold_clean_split_rooted_clean by done.
  unfold rooted_clean. f_equal. f_equal.
  destruct es as [|e es].
  - simpl. change (clean_elem true (rev out ++ []) []) with (rev out ++ []).
    by rewrite !app_nil_r, rev_involutive.
  - fold (Split (Join (e :: es) [Separator]) Separator).
    rewrite Split_Join by (by apply normal_sep_free || done).
    rewrite fold_clean_normal by done.
    by rewrite app_nil_r, <- rev_app_distr, rev_involutive.
Qed.

(** Joining with [.] changes nothing. *)
Lemma Clean_rooted_dot out :
  Forall normal out ->
  Clean (rooted_clean out ++ Separator :: str ".") = rooted_clean out.
Proof.
  intros Hout. unfold Clean.
  change (rooted_clean out ++ Separator :: str ".")
    with (Separator :: (Join out [Separator] ++ Separator :: str ".")).
  rewrite IsAbs_cons.
  change (Separator :: (Join out [Separator] ++ Separator :: str "."))
    with (rooted_clean out ++ Separator :: str ".").
  unfold Split. rewrite split_from_app_sep, fold_left_app.
  fold (Split (rooted_clean out) Separator).
  rewrite fold_clean_split_rooted_clean by done.
  change (split_from Separator [] (str ".")) with [str "."].
  cbn [fold_left].
  change (clean_elem true (rev out ++ []) (str ".")) with (rev out ++ []).
  by rewrite app_nil_r, rev_involutive.
Qed.

Lemma elements_rooted_clean out :
  Forall normal out -> elements (rooted_clean out) = out.
Proof.
  intros Hout. unfold elements, rooted_clean, Split. simpl.
  rewrite filter_cons, decide_False by (intros H; by apply H).
  destruct out as [|e out]; [done|].
  fold (Split (Join (e :: out) [Separator]) Separator).
  rewrite Split_Join by (by apply normal_sep_free || done).
  induction Hout as [|e' out' (He' & _) _ IH]; [done|].
  rewrite filter_cons, decide_True by done. by rewrite IH.
Qed.

Lemma inside_rooted_clean out es :
  Forall normal out -> Forall normal es ->
  inside (rooted_clean out) (rooted_clean (out ++ es)) = true.
Proof.
  intros Hout Hes. unfold inside. apply bool_decide_eq_true.
  rewrite !elements_rooted_clean by (done || by apply Forall_app).
  by apply prefix_app_r.
Qed.

End CleanFacts.

Section UntarFacts.
Import Filepath Untar.

Lemma Index_elem (s : list ascii) (c : ascii) (i : nat) :
  Index s [c] = Some i -> c ∈ s.
Proof.
  revert i. induction s as [|x s IH]; intros i; simpl.
  - destruct (HasPrefix [] [c]) eqn:E; [|done].
    apply HasPrefix_true in E as [k E]. done.
  - destruct (HasPrefix (x :: s) [c]) eqn:E.
    + apply HasPrefix_true in E as [k E]. injection E as -> _. intros _.
      by left.
    + destruct (Index s [c]) as [j|] eqn:Ej; [|done].
      intros _. right. by eapply IH.
Qed.

Lemma Contains_sep_free (e : list ascii) (c : ascii) :
  c ∉ e -> Contains e [c] = false.
Proof.
  intros He. unfold Contains. apply bool_decide_eq_false.
  intros [i Hi]. by apply Index_elem in Hi.
Qed.

Lemma Join2_rooted out (b : list ascii) :
  b <> [] ->
  Join2 (rooted_clean out) b = Clean (rooted_clean out ++ Separator :: b).
Proof. intros Hb. unfold Join2, rooted_clean. by destruct b. Qed.

Lemma rooted_clean_root out :
  Forall normal out -> out <> [] -> eqb (rooted_clean out) [Separator] = false.
Proof.
  intros Hout Hne. apply eqb_neq. unfold rooted_clean. intros H.
  injection H as H. by apply (Join_nonempty out).
Qed.

(** A member with a rooted name is created inside the target directory,
    and so are the directories made for it. *)
Lemma untar_member_rooted_inside (os : OS) out (hdr : tarHeader)
    (copied : N) (cpErr : option error) (fs : list created) :
  Forall normal out ->
  IsAbs (Name hdr) = true ->
  Forall (fun c => c ∈ fs
                   \/ inside (rooted_clean out) (created_path c) = true)
    (untar_member os (rooted_clean out) hdr copied cpErr fs).1.
Proof.
  intros Hout Habs.
  set (P := fun c => c ∈ fs
                     \/ inside (rooted_clean out) (created_path c) = true).
  assert (Forall P fs) as Hfs.
  { apply Forall_forall. intros c Hc. by left. }
  assert (forall l c q, Forall P l -> Forall normal q ->
            created_path c = rooted_clean (out ++ q) ->
            Forall P (l ++ [c])) as Hsnoc.
  { intros l c q Hl Hq Hc. apply Forall_app. split; [done|].
    constructor; [|done]. right. rewrite Hc. by apply inside_rooted_clean. }
  assert (forall l e c q, Forall P l -> Forall normal q ->
            created_path c = rooted_clean (out ++ q) ->
            Forall P (log_created e c l)) as Hlog.
  { intros l [e|] c q Hl Hq Hc; simpl; [done|]. by eapply (Hsnoc l c q). }
  unfold untar_member. rewrite Habs. unfold Rel_root.
  destruct (Clean_rooted _ Habs) as (out' & Hout' & ->).
  assert (forall fileName q fs1,
            Forall normal q -> Forall P fs1 ->
            Join2 (rooted_clean out) fileName = rooted_clean (out ++ q) ->
            Forall P
              (if ModeIsDir hdr then
                 match os_MkdirAll os (Join2 (rooted_clean out) fileName) with
                 | Some e => (fs1, Some (Some e))
                 | None =>
                     (fs1 ++ [CreatedDir (Join2 (rooted_clean out) fileName)],
                      None)
                 end
               else
                 match os_OpenFile os (Join2 (rooted_clean out) fileName) with
                 | Some e => (fs1, Some (Some e))
                 | None =>
                     let err : option error := None in
                     let fs2 :=
                       fs1 ++ [CreatedFile
                                 (Join2 (rooted_clean out) fileName) copied] in
                     match os_Close os (Join2 (rooted_clean out) fileName) with
                     | Some _ => (fs2, Some err)
                     | None =>
                         match cpErr with
                         | Some e => (fs2, Some (Some e))
                         | None =>
                             if negb (copied =? Size hdr)
                             then (fs2, Some (Some (ErrBytesWritten copied
                                                      (Size hdr))))
                             else (fs2, None)
                         end
                     end
                 end).1) as Htail.
  { intros fileName q fs1 Hq Hfs1 Hjoin. rewrite Hjoin.
    destruct (ModeIsDir hdr).
    - destruct (os_MkdirAll os _); simpl; [done|].
      by eapply (Hsnoc fs1 _ q).
    - destruct (os_OpenFile os _); simpl; [done|].
      assert (Forall P (fs1 ++ [CreatedFile (rooted_clean (out ++ q)) copied]))
        by (by eapply (Hsnoc fs1 _ q)).
      destruct (os_Close os _); simpl; [done|].
      destruct cpErr; simpl; [done|].
      by destruct (negb (copied =? Size hdr)). }
  destruct out' as [|e' out'].
  - change (eqb (rooted_clean []) [Separator]) with true. cbn iota.
    change (Contains (str ".") [Separator]) with false. cbn iota.
    apply (Htail (str ".") [] fs); [done | done |].
    rewrite Join2_rooted by done.
    by rewrite Clean_rooted_dot, app_nil_r.
  - rewrite rooted_clean_root by done.
    change (drop 1 (rooted_clean (e' :: out')))
      with (Join (e' :: out') [Separator]).
    assert (Join (e' :: out') [Separator] <> []) as Hne
      by (by apply Join_nonempty).
    assert (Join2 (rooted_clean out) (Join (e' :: out') [Separator])
            = rooted_clean (out ++ e' :: out')) as Hjoin.
    { rewrite Join2_rooted by done. by apply Clean_rooted_join. }
    apply (Htail _ (e' :: out')); [done | | done].
    destruct (Contains (Join (e' :: out') [Separator]) [Separator]) eqn:HC;
      [|done].
    rewrite Split_Join by (by apply normal_sep_free || done).
    destruct out' as [|e'' out'].
    { simpl in HC. rewrite Contains_sep_free in HC; [done|].
      inversion Hout' as [|? ? (_ & _ & _ & ?) _]. done. }
    change (1 <? length (e' :: e'' :: out'))%nat with true. cbn iota.
    assert (Forall normal (take (length (e' :: e'' :: out') - 1)
                             (e' :: e'' :: out'))) as Hdirs
      by (by apply Forall_take).
    apply (Hlog fs _ _ (take (length (e' :: e'' :: out') - 1)
                          (e' :: e'' :: out'))); [done | done |].
    unfold created_path. rewrite Join2_rooted.
    + by apply Clean_rooted_join.
    + apply Join_nonempty; [done|]. simpl. done.
Qed.

Lemma untar_loop_rooted_inside (os : OS) out (its : list tarItem)
    (fs : list created) :
  Forall normal out -> rooted_members its ->
  Forall (fun c => inside (rooted_clean out) (created_path c) = true) fs ->
  Forall (fun c => inside (rooted_clean out) (created_path c) = true)
    (untar_loop os (rooted_clean out) its fs).1.
Proof.
  intros Hout Hits. revert fs.
  induction Hits as [|[hdr copied cpErr|e] its Hit _ IH]; intros fs Hfs;
    simpl; [done| |done].
  pose proof (untar_member_rooted_inside os out hdr copied cpErr fs Hout Hit)
    as Hm.
  assert (Forall (fun c => inside (rooted_clean out) (created_path c) = true)
            (untar_member os (rooted_clean out) hdr copied cpErr fs).1)
    as Hfs'.
  { eapply Forall_impl; [exact Hm|]. intros c [Hc|Hc]; [|done].
    by apply (proj1 (Forall_forall _ _) Hfs). }
  destruct (untar_member os (rooted_clean out) hdr copied cpErr fs)
    as [fs' [r|]]; simpl in *; [done|].
  by apply IH.
Qed.

(** [untar] into a rooted target: if every member name is rooted, every
    path created lies inside the target directory. *)
Lemma untar_rooted_members_inside (os : OS) (tb : tarball)
    (tarName xpath : list ascii) :
  IsAbs xpath = true -> rooted_members (items tb) ->
  Forall (fun c => inside (Clean xpath) (created_path c) = true)
    (untar os tb tarName xpath).1.
Proof.
  intros Habs Hits. unfold untar.
  destruct (openErr tb); [by constructor|]. simpl.
  unfold Abs. rewrite Habs.
  destruct (Clean_rooted _ Habs) as (out & Hout & ->).
  destruct (if _ || _ then gzipErr tb else None); [by constructor|].
  apply untar_loop_rooted_inside; [done | done | by constructor].
Qed.

End UntarFacts.

(** * The claims *)

(** C1 (the code departs from the claim): with [max-secrets = 2], an image
    of two layers, the first with one match and the second with two,
    yields three findings on both surfaces.  Every layer's walk counts
    from zero, and the sum is compared with the cap after the layer. *)
Theorem C1_image_scan_exceeds_max_secrets :
  let opts := Examples.options 2 in
  let X := Examples.plain opts Examples.catalog2 in
  let img := Examples.two_layer_image in
  let findings :=
    [ Examples.finding 1 "l0" "env" 0; Examples.finding 1 "l1" "env" 0;
      Examples.finding 2 "l1" "env" 6 ] in
  Scan.MaxSecrets opts = 2
  /\ Scan.processImageLayers X opts Examples.two_layers img (str "/tmp/t")
     = Scan.Returns (Scan.set_numSecrets img 3, (findings, None))
  /\ Scan.processImageLayersStream X opts Examples.two_layers img
       (str "/tmp/t")
     = Scan.Returns (Scan.set_numSecrets img 3, (Some findings, None)).
Proof. repeat split; vm_compute; reflexivity. Qed.

(** C2 (the code departs from the claim): a member named [../evil] is
    created at [/tmp/evil], outside the target directory [/tmp/x]; only a
    rooted name is brought under the target: [/etc/passwd] is created at
    [/tmp/x/etc/passwd]. *)
Theorem C2_untar_dotdot_member_escapes :
  let run names :=
    Untar.untar Examples.os_ok (Examples.archive None names)
      (str "layer.tar") (str "/tmp/x") in
  run ["../evil"%string]
  = ([Untar.CreatedDir (str "/tmp"); Untar.CreatedFile (str "/tmp/evil") 3],
     None)
  /\ Filepath.inside (str "/tmp/x") (str "/tmp/evil") = false
  /\ run ["/etc/passwd"%string]
     = ([Untar.CreatedDir (str "/tmp/x/etc");
         Untar.CreatedFile (str "/tmp/x/etc/passwd") 3], None)
  /\ Filepath.inside (str "/tmp/x") (str "/tmp/x/etc/passwd") = true.
Proof. repeat split; vm_compute; reflexivity. Qed.

(** C3 (the code departs from the claim): a manifest that parses as an
    empty array, or as an array of two entries, makes
    [extractDetailsFromManifest] return the zero manifest item together
    with a nil error, and [extractImage] then returns nil as well, with an
    empty image id and no layer. *)
Theorem C3_manifest_length_not_one_returns_nil :
  let m := Examples.manifest_of ["l/layer.tar"%string] in
  let img := {| Image.imageName := str "img"; Image.imageId := [];
                Image.tempDir := str "/tmp/t";
                Image.imageManifest := manifestItem_zero;
                Image.numSecrets := 0 |} in
  extractDetailsFromManifest (Decodes []) = (manifestItem_zero, None)
  /\ extractDetailsFromManifest (Decodes [m; m]) = (manifestItem_zero, None)
  /\ Image.extractImage img true None None (Decodes [m; m]) = (img, None).
Proof. repeat split. Qed.



(** C5 (the code departs from the claim): a layer whose archive is
    extracted but whose [extractTarFile] returns an error (closing the
    archive fails).  [processImageLayers] goes on to scan the extracted
    files and returns their finding; [processImageLayersStream] skips the
    layer and sends nothing.  Without the error both give the finding.
    And when the directory of the first of two layers cannot be made,
    [processImageLayers] returns at once with that error and no finding,
    while [processImageLayersStream] goes on and sends the finding of the
    second layer. *)
Theorem C5_stream_skips_layer_after_extraction_error :
  let opts := Examples.options 1000 in
  let X := Examples.plain opts Examples.catalog1 in
  let img := Examples.one_layer_image in
  let e := Examples.close_fails in
  let found := [Examples.finding 1 "l0" "env" 0] in
  Untar.extractTarFile Examples.os_ok
    (Examples.archive (Some e) ["env"%string])
    (str "/tmp/t/l0/layer.tar") (str "/tmp/t/ExtractedFiles/l0")
  = ([Untar.CreatedFile (str "/tmp/t/ExtractedFiles/l0/env") 3],
     ([], Some e))
  /\ Scan.processImageLayers X opts (Examples.one_layer (Some e)) img
       (str "/tmp/t")
     = Scan.Returns (Scan.set_numSecrets img 1, (found, None))
  /\ Scan.processImageLayersStream X opts (Examples.one_layer (Some e)) img
       (str "/tmp/t")
     = Scan.Returns (img, (Some [], None))
  /\ Scan.processImageLayers X opts (Examples.one_layer None) img
       (str "/tmp/t")
     = Scan.Returns (Scan.set_numSecrets img 1, (found, None))
  /\ Scan.processImageLayersStream X opts (Examples.one_layer None) img
       (str "/tmp/t")
     = Scan.Returns (Scan.set_numSecrets img 1, (Some found, None))
  /\ Scan.processImageLayers X opts Examples.first_mkdir_fails
       Examples.two_layer_image (str "/tmp/t")
     = Scan.Returns (Examples.two_layer_image,
                     ([], Some Examples.mkdir_fails))
  /\ Scan.processImageLayersStream X opts Examples.first_mkdir_fails
       Examples.two_layer_image (str "/tmp/t")
     = Scan.Returns (Scan.set_numSecrets Examples.two_layer_image 1,
                     (Some [Examples.finding 1 "l1" "env" 0], None)).
Proof. repeat split; vm_compute; reflexivity. Qed.

(** C6 (the code departs from the claim): the walk makes one rule-hit map
    and hands it to the content matcher for every file.  With multi-match
    off, the directory with the files [a] and [b], both holding [KEY=],
    yields the finding of [a] only, on both surfaces: at [b] the map
    already counts a match of rule 1.  Scanned alone, [b] yields its
    finding. *)
Theorem C6_rule_hit_map_is_per_walk :
  let opts := Examples.options 1000 in
  let X := Examples.plain opts Examples.catalog1 in
  let a := Examples.file_a in
  let b := Examples.file_b in
  let scan entries :=
    Scan.ScanSecretsInDir X opts Examples.never [] (str "/r") (str "/r")
      (Examples.root entries) in
  let stream entries :=
    Scan.ScanSecretsInDirStream X opts Examples.never [] (str "/r")
      (str "/r") (Examples.root entries) in
  Scan.MultipleMatch opts = false
  /\ scan [a; b] = ([Examples.finding 1 "" "a" 0], None)
  /\ stream [a; b] = (Some [Examples.finding 1 "" "a" 0], None)
  /\ scan [b] = ([Examples.finding 1 "" "b" 0], None)
  /\ Scan.matchedRuleSet
       (Scan.scanWalk X opts Scan.Batch Examples.never [] (str "/r")
          (str "/r") (Examples.root [a])).1 = {[ 1%N := 1%N ]}.
Proof. repeat split; vm_compute; reflexivity. Qed.

(** C7: in every walk, batch or stream, the findings returned (or sent)
    are those emitted, in order; a call of [Checkpoint] that returns an
    error is the last thing that happens in the walk, so no finding is
    appended or sent after it, and the findings emitted before it are what
    the slice (or the closed channel) holds. *)
Theorem C7_no_finding_after_cancellation {SecretFound : Type}
    (X : @Scan.Externals SecretFound) (opts : Scan.Options)
    (Checkpoint : nat -> bool) (layer baseDir fullDir : list ascii)
    (root : Scan.DirEntry + string) :
  let batch := Scan.scanEvents X opts Scan.Batch Checkpoint layer baseDir
                 fullDir root in
  let stream := Scan.scanEvents X opts Scan.Stream Checkpoint layer baseDir
                  fullDir root in
  Scan.ScanSecretsInDir X opts Checkpoint layer baseDir fullDir root
  = (Scan.emitted batch, None)
  /\ Scan.ScanSecretsInDirStream X opts Checkpoint layer baseDir fullDir root
     = (Some (Scan.emitted stream), None)
  /\ (forall pre post, batch = pre ++ Scan.Checkpointed true :: post ->
        post = []
        /\ (Scan.ScanSecretsInDir X opts Checkpoint layer baseDir fullDir
              root).1 = Scan.emitted pre)
  /\ (forall pre post, stream = pre ++ Scan.Checkpointed true :: post ->
        post = []
        /\ (Scan.ScanSecretsInDirStream X opts Checkpoint layer baseDir
              fullDir root).1 = Some (Scan.emitted pre)).
Proof.
  cbn zeta. unfold Scan.scanEvents, Scan.ScanSecretsInDir,
    Scan.ScanSecretsInDirStream.
  pose proof (scanWalk_ended X opts Scan.Batch Checkpoint layer baseDir
                fullDir root) as [Hb Hb'].
  pose proof (scanWalk_ended X opts Scan.Stream Checkpoint layer baseDir
                fullDir root) as [Hs Hs'].
  destruct (Scan.scanWalk X opts Scan.Batch _ _ _ _ _) as [stb eb].
  destruct (Scan.scanWalk X opts Scan.Stream _ _ _ _ _) as [sts es].
  simpl in *.
  split; [by rewrite Hb|]. split; [by rewrite Hs|]. split.
  - intros pre post Hsplit.
    pose proof (stopped_is_last _ _ _ Hb' Hsplit) as ->.
    split; [done|]. rewrite Hb, Hsplit, emitted_app. simpl.
    by rewrite app_nil_r.
  - intros pre post Hsplit.
    pose proof (stopped_is_last _ _ _ Hs' Hsplit) as ->.
    split; [done|]. rewrite Hs, Hsplit, emitted_app. simpl.
    by rewrite app_nil_r.
Qed.

(** C8, the claim as stated fails: the entry [a/layer.tar.tar] gives the
    layer id [a/layer.tar], which ends in [/layer.tar] and in [.tar]. *)
Lemma C8_counterexample :
  let m := Examples.manifest_of ["a/layer.tar.tar"%string] in
  LayerIds (extractDetailsFromManifest (Decodes [m])).1 = [str "a/layer.tar"]
  /\ HasSuffix (str "a/layer.tar") (str "/layer.tar") = true
  /\ HasSuffix (str "a/layer.tar") (str ".tar") = true.
Proof. repeat split. Qed.

(** C8 (amended): for a manifest of one entry [m], the derived [LayerIds]
    have the length and order of [Layers]; each is its [Layers] entry with
    a trailing [/layer.tar] removed once and then a trailing [.tar] removed
    once; a layer id still ends in [.tar] only if its entry ended in
    [.tar.tar] or [.tar/layer.tar]; and [imageId] is [Config] with a
    trailing [.json] removed once. *)
Theorem C8_layer_ids (m : manifestItem) :
  let r := extractDetailsFromManifest (Decodes [m]) in
  r.2 = None
  /\ Layers r.1 = Layers m
  /\ length (LayerIds r.1) = length (Layers m)
  /\ (forall i layer, Layers m !! i = Some layer ->
        LayerIds r.1 !! i
        = Some (TrimSuffix (TrimSuffix layer (str "/layer.tar")) (str ".tar")))
  /\ (forall i layer layerId,
        Layers m !! i = Some layer -> LayerIds r.1 !! i = Some layerId ->
        HasSuffix layerId (str ".tar") = true ->
        HasSuffix layer (str ".tar.tar") = true
        \/ HasSuffix layer (str ".tar/layer.tar") = true)
  /\ (forall imageScan saveImage,
        let r' := Image.extractImage imageScan saveImage None None
                    (Decodes [m]) in
        r'.2 = None
        /\ Image.imageId r'.1 = TrimSuffix (Config m) (str ".json")
        /\ LayerIds (Image.imageManifest r'.1) = LayerIds r.1).
Proof.
  cbn zeta. simpl extractDetailsFromManifest. simpl.
  rewrite deriveLayerIds_map.
  split; [done|]. split; [done|]. split; [by rewrite length_map|].
  split; [|split].
  - intros i layer Hi. rewrite list_lookup_fmap, Hi. done.
  - intros i layer layerId Hi Hid Hsuf.
    rewrite list_lookup_fmap, Hi in Hid. simpl in Hid.
    injection Hid as <-. by apply trimLayerId_still_tar.
  - intros imageScan saveImage. unfold Image.extractImage.
    simpl. rewrite deriveLayerIds_map. by destruct saveImage.
Qed.

(** C9, the claim as stated fails.  In the file [a CR LF] the line between
    the newlines is [a CR], yet [readFile] returns [a LF]: the scanner
    drops a carriage return before a newline.  The empty file lacks a
    trailing newline, yet [readFile] returns its bytes unchanged. *)
Lemma C9_counterexample :
  let crlf := [ "a"%char; ReadFile.carriage_return; ReadFile.newline ] in
  ReadFile.readFile (inl crlf) = ([ "a"%char; ReadFile.newline ], None)
  /\ ReadFile.claimed_content crlf = crlf
  /\ ReadFile.lacks_trailing_newline []
  /\ ReadFile.readFile (inl []) = ([], None).
Proof. repeat split. by intros H. Qed.

(** C9 (amended): for every readable file in which no line reaches the
    64 KiB token limit of the scanner, [readFile] returns, with a nil
    error, the concatenation of the file's non-empty lines, each followed
    by one newline, where a line is the run of bytes between two newlines
    without one carriage return at its end; the result differs from the
    bytes of the file whenever the file contains an empty line, or is not
    empty and lacks a trailing newline. *)
Theorem C9_readFile_short_lines (bytes : list ascii) :
  ReadFile.short_lines ReadFile.MaxScanTokenSize bytes ->
  ReadFile.readFile (inl bytes)
  = (ReadFile.join_nonempty
       (map ReadFile.dropCR (Split bytes ReadFile.newline)), None)
  /\ (ReadFile.has_empty_line bytes
      \/ (bytes <> [] /\ ReadFile.lacks_trailing_newline bytes) ->
      (ReadFile.readFile (inl bytes)).1 <> bytes).
Proof.
  intros Hshort. unfold ReadFile.readFile.
  rewrite (readFile_short_lines _ _ Hshort). split; [done|].
  simpl. intros Hdiff Heq.
  apply joined_is_file in Heq as [Hno Hnl].
  - destruct Hdiff as [?|[? ?]]; [done|]. by destruct Hnl.
  - apply Forall_forall. intros l Hl.
    apply list_elem_of_fmap in Hl as (f & -> & Hf).
    apply dropCR_no_newline.
    assert (Forall (fun f => ReadFile.newline ∉ f)
              (Split bytes ReadFile.newline)) as Hall
      by (apply split_from_no_sep, not_elem_of_nil).
    by apply (proj1 (Forall_forall _ _) Hall).
Qed.

(** Witness of C9: a file with a CR LF line end, an empty line and no
    final newline. *)
Lemma C9_readFile_short_lines_witness :
  let bytes := [ "a"%char; ReadFile.carriage_return; ReadFile.newline;
                 ReadFile.newline; "b"%char ] in
  ReadFile.readFile (inl bytes)
  = ([ "a"%char; ReadFile.newline; "b"%char; ReadFile.newline ], None)
  /\ (ReadFile.readFile (inl bytes)).1 <> bytes.
Proof.
  cbn zeta.
  pose proof (C9_readFile_short_lines
    [ "a"%char; ReadFile.carriage_return; ReadFile.newline;
      ReadFile.newline; "b"%char ]) as H.
  destruct H as [H1 H2].
  - unfold ReadFile.short_lines, ReadFile.MaxScanTokenSize.
    repeat constructor; simpl; lia.
  - split; [exact H1|]. apply H2. right. split; [done|]. by intros H.
Defined.

(** C10: [ScanSecretsInDir] returns a nil error and
    [ScanSecretsInDirStream] a channel and a nil error, whatever the walk
    met.  A walk that [Checkpoint] stops at once, a walk whose root cannot
    be read and the walk of an empty directory end with different
    [walkErr], yet all three return the empty slice and nil. *)
Theorem C10_scan_returns_nil_error {SecretFound : Type}
    (X : @Scan.Externals SecretFound) (opts : Scan.Options)
    (layer baseDir fullDir : list ascii) :
  (forall Checkpoint root,
      (Scan.ScanSecretsInDir X opts Checkpoint layer baseDir fullDir root).2
      = None
      /\ exists res,
           Scan.ScanSecretsInDirStream X opts Checkpoint layer baseDir
             fullDir root = (Some res, None))
  /\ (forall d,
        (Scan.scanWalk X opts Scan.Batch (fun _ => true) layer baseDir
           fullDir (inl d)).2 = Some ErrCheckpoint
        /\ Scan.ScanSecretsInDir X opts (fun _ => true) layer baseDir
             fullDir (inl d) = ([], None))
  /\ (forall Checkpoint msg,
        (Scan.scanWalk X opts Scan.Batch Checkpoint layer baseDir
           fullDir (inr msg)).2 = Some (ErrOS msg)
        /\ Scan.ScanSecretsInDir X opts Checkpoint layer baseDir
             fullDir (inr msg) = ([], None))
  /\ (forall name,
        (Scan.scanWalk X opts Scan.Batch (fun _ => false) layer baseDir
           fullDir (inl (Scan.Directory name None []))).2 = None
        /\ Scan.ScanSecretsInDir X opts (fun _ => false) layer baseDir
             fullDir (inl (Scan.Directory name None [])) = ([], None)).
Proof.
  split; [|split; [|split]].
  - intros Checkpoint root.
    unfold Scan.ScanSecretsInDir, Scan.ScanSecretsInDirStream.
    destruct (Scan.scanWalk X opts Scan.Batch _ _ _ _ _) as [stb eb].
    destruct (Scan.scanWalk X opts Scan.Stream _ _ _ _ _) as [sts es].
    split; [done|]. by exists (Scan.found sts).
  - intros d. unfold Scan.ScanSecretsInDir, Scan.scanWalk, Scan.WalkDir.
    destruct d; done.
  - intros Checkpoint msg. done.
  - intros name.
    unfold Scan.ScanSecretsInDir, Scan.scanWalk, Scan.WalkDir. simpl.
    destruct (Scan.IsSkippableDir X _ _); done.
Qed.

(** * Further properties of the code *)

(** ** [untar] and [extractTarFile] *)

Section UntarMore.
Import Filepath Untar.

Lemma untar_loop_read_error (os : OS) (absPath : list ascii)
    (pre post : list tarItem) (e : error) (fs : list created) :
  (untar_loop os absPath (pre ++ NextFails e :: post) fs).1
  = (untar_loop os absPath pre fs).1.
Proof.
  revert fs. induction pre as [|[hdr copied cpErr|e'] pre IH]; intros fs;
    simpl; [done| |done].
  destruct (untar_member os absPath hdr copied cpErr fs) as [fs' [r|]];
    [done|]. apply IH.
Qed.

End UntarMore.

(** X1: when the target directory is given by a rooted path and every
    member of the archive has a rooted name, every file and directory that
    [untar] creates lies inside the (cleaned) target directory. *)
Theorem X1_untar_rooted_members_stay_inside (os : Untar.OS)
    (tb : Untar.tarball) (tarName xpath : list ascii) :
  Filepath.IsAbs xpath = true ->
  Untar.rooted_members (Untar.items tb) ->
  Forall (fun c => Filepath.inside (Filepath.Clean xpath)
                     (Untar.created_path c) = true)
    (Untar.untar os tb tarName xpath).1.
Proof. apply untar_rooted_members_inside. Qed.

(** Witness of X1: the archive with the member [/etc/passwd], extracted
    into [/tmp/x]. *)
Lemma X1_untar_rooted_members_stay_inside_witness :
  Forall (fun c => Filepath.inside (Filepath.Clean (str "/tmp/x"))
                     (Untar.created_path c) = true)
    (Untar.untar Examples.os_ok (Examples.archive None ["/etc/passwd"%string])
       (str "layer.tar") (str "/tmp/x")).1.
Proof.
  apply X1_untar_rooted_members_stay_inside.
  - reflexivity.
  - repeat constructor.
Defined.

(** X2: a read error of the tar reader in the middle of an archive ends
    the extraction, no later member is created, and the caller cannot tell:
    [untar] and [extractTarFile] return what they return for the archive
    that ends before the error.  Once the archive is open, the error that
    [untar] returns is the result of closing it, whatever happened in
    between. *)
Theorem X2_untar_hides_read_error (os : Untar.OS)
    (openErr closeErr gzipErr : option error)
    (pre post : list Untar.tarItem) (e : error)
    (tarName xpath : list ascii) :
  let broken :=
    {| Untar.openErr := openErr; Untar.closeErr := closeErr;
       Untar.gzipErr := gzipErr;
       Untar.items := pre ++ Untar.NextFails e :: post |} in
  let short :=
    {| Untar.openErr := openErr; Untar.closeErr := closeErr;
       Untar.gzipErr := gzipErr; Untar.items := pre |} in
  Untar.untar os broken tarName xpath = Untar.untar os short tarName xpath
  /\ Untar.extractTarFile os broken tarName xpath
     = Untar.extractTarFile os short tarName xpath
  /\ (openErr = None -> (Untar.untar os broken tarName xpath).2 = closeErr).
Proof.
  cbn zeta.
  assert (Untar.untar os
            {| Untar.openErr := openErr; Untar.closeErr := closeErr;
               Untar.gzipErr := gzipErr;
               Untar.items := pre ++ Untar.NextFails e :: post |}
            tarName xpath
          = Untar.untar os
              {| Untar.openErr := openErr; Untar.closeErr := closeErr;
                 Untar.gzipErr := gzipErr; Untar.items := pre |}
              tarName xpath) as Heq.
  { unfold Untar.untar. simpl. destruct openErr; [done|].
    destruct (Filepath.Abs _ _); [|done].
    destruct (if _ || _ then gzipErr else None); [done|].
    by rewrite untar_loop_read_error. }
  split; [done|]. split.
  - unfold Untar.extractTarFile. by rewrite Heq.
  - intros ->. done.
Qed.

(** ** [readFile] *)

Section ReadFileMore.
Import ReadFile.

Implicit Types line data pre rest l : list ascii.

Lemma scan_tokens_no_newline (maxTok : N) data line :
  newline ∉ line -> Forall (fun t => newline ∉ t) (scan_tokens maxTok line data).
Proof.
  revert line. induction data as [|c data IH]; intros line Hline; simpl.
  - destruct line; [by constructor|].
    constructor; [|by constructor]. by apply dropCR_no_newline.
  - case_bool_decide.
    + constructor; [by apply dropCR_no_newline|].
      apply IH, not_elem_of_nil.
    + destruct (maxTok <=? _); [by constructor|].
      apply IH. rewrite elem_of_app, list_elem_of_singleton.
      intros [?|?]; [done | congruence].
Qed.

(** A line that fills the buffer ends the scan. *)
Lemma scan_tokens_long_line (maxTok : N) line acc rest :
  newline ∉ line ->
  N.of_nat (length acc) < maxTok ->
  maxTok <= N.of_nat (length acc + length line) ->
  scan_tokens maxTok acc (line ++ rest) = [].
Proof.
  revert acc. induction line as [|c line IH]; intros acc Hnl Hacc Hlen.
  - simpl in Hlen. lia.
  - simpl. rewrite bool_decide_eq_false_2.
    2: { intros ->. apply Hnl. by left. }
    destruct (maxTok <=? N.of_nat (S (length acc))) eqn:E; [done|].
    apply N.leb_gt in E. apply IH.
    + intros ?. apply Hnl. by right.
    + rewrite length_app. simpl. lia.
    + rewrite length_app. simpl in *. lia.
Qed.

Lemma scan_tokens_before_long_line (maxTok : N) pre line rest acc :
  (pre = [] -> acc = []) ->
  (pre <> [] -> last pre = Some newline) ->
  newline ∉ line ->
  N.of_nat (length acc) < maxTok ->
  maxTok <= N.of_nat (length line) ->
  scan_tokens maxTok acc (pre ++ line ++ rest) = scan_tokens maxTok acc pre.
Proof.
  revert acc. induction pre as [|c pre IH]; intros acc Hempty Hlast Hnl Hacc Hlen.
  - rewrite (Hempty eq_refl). simpl.
    apply scan_tokens_long_line; simpl; [done | | lia].
    rewrite (Hempty eq_refl) in Hacc. done.
  - simpl. case_bool_decide.
    + f_equal. apply IH; [done | | done | simpl; lia | done].
      intros Hne. specialize (Hlast ltac:(done)).
      destruct pre; [done|]. done.
    + destruct (maxTok <=? N.of_nat (S (length acc))) eqn:E; [done|].
      apply N.leb_gt in E.
      assert (pre <> []) as Hne.
      { intros ->. specialize (Hlast ltac:(done)). simpl in Hlast.
        congruence. }
      apply IH; [done | | done | | done].
      * intros _. specialize (Hlast ltac:(done)).
        destruct pre; [done|]. done.
      * rewrite length_app. simpl. lia.
Qed.

Lemma dropCR_id l : last l <> Some carriage_return -> dropCR l = l.
Proof.
  intros H. destruct (dropCR_cases l) as [E|E]; [done|].
  exfalso. apply H. rewrite E. by rewrite last_snoc.
Qed.

Lemma join_nonempty_all (ls : list (list ascii)) :
  Forall (fun l => l <> []) ls ->
  join_nonempty (ls ++ [[]]) = concat (map (fun l => l ++ [newline]) ls).
Proof.
  intros H. unfold join_nonempty. rewrite filter_app.
  rewrite (filter_cons _ []), decide_False by (intros E; by apply E).
  rewrite filter_nil, app_nil_r.
  induction H as [|l ls Hl _ IH]; [done|].
  rewrite filter_cons, decide_True by done. simpl. by rewrite IH.
Qed.

End ReadFileMore.

(** X3: whatever the bytes of a readable file, [readFile] returns a nil
    error and a content without an empty line that is empty or ends in a
    newline; for a file that cannot be opened it returns no content and
    the error of the open. *)
Theorem X3_readFile_content_shape (file : list ascii + error) :
  match file with
  | inr err => ReadFile.readFile file = ([], Some err)
  | inl bytes =>
      let content := (ReadFile.readFile file).1 in
      (ReadFile.readFile file).2 = None
      /\ ~ ReadFile.has_empty_line content
      /\ (content = [] \/ last content = Some ReadFile.newline)
  end.
Proof.
  destruct file as [bytes|err]; [|done]. cbn zeta.
  unfold ReadFile.readFile, ReadFile.readFile_with. simpl.
  rewrite readFile_loop_joined. split; [done|].
  destruct (joined_is_file
              (ReadFile.join_nonempty
                 (ReadFile.scan_tokens ReadFile.MaxScanTokenSize [] bytes))
              (ReadFile.scan_tokens ReadFile.MaxScanTokenSize [] bytes))
    as [Hno Hnl].
  - apply scan_tokens_no_newline, not_elem_of_nil.
  - done.
  - split; [done|]. apply join_nonempty_last.
Qed.

(** X4: when a line reaches the 64 KiB token limit of the scanner,
    [readFile] returns, with a nil error, only what the lines before it
    give: that line and everything after it never reach the content
    matcher. *)
Theorem X4_readFile_stops_at_long_line (pre line rest : list ascii) :
  (pre = [] \/ last pre = Some ReadFile.newline) ->
  ReadFile.newline ∉ line ->
  ReadFile.MaxScanTokenSize <= N.of_nat (length line) ->
  ReadFile.readFile (inl (pre ++ line ++ rest)) = ReadFile.readFile (inl pre)
  /\ (ReadFile.readFile (inl (pre ++ line ++ rest))).2 = None.
Proof.
  intros Hpre Hnl Hlen.
  unfold ReadFile.readFile, ReadFile.readFile_with.
  rewrite (scan_tokens_before_long_line _ pre line rest []); [done| | |done| |done].
  - done.
  - intros Hne. by destruct Hpre.
  - unfold ReadFile.MaxScanTokenSize. simpl. lia.
Qed.

(** Witness of X4: one short line, a line of 65536 bytes, and a secret
    after it. *)
Lemma X4_readFile_stops_at_long_line_witness :
  let pre := str "ok" ++ [ReadFile.newline] in
  let rest := ReadFile.newline :: str "KEY=1" in
  ReadFile.readFile (inl (pre ++ Witnesses.long_line ++ rest))
  = ReadFile.readFile (inl pre)
  /\ (ReadFile.readFile (inl (pre ++ Witnesses.long_line ++ rest))).2 = None.
Proof.
  cbn zeta.
  apply (X4_readFile_stops_at_long_line
           (str "ok" ++ [ReadFile.newline]) Witnesses.long_line
           (ReadFile.newline :: str "KEY=1")).
  - right. reflexivity.
  - unfold Witnesses.long_line. intros H.
    apply elem_of_replicate in H as [H _]. discriminate H.
  - unfold Witnesses.long_line. rewrite length_replicate, N2Nat.id.
    apply N.le_refl.
Defined.

(** X5: [readFile] returns a file unchanged when the file consists of
    non-empty lines below the token limit, each ended by a newline and
    none ending in a carriage return: on such content it is the
    identity. *)
Theorem X5_readFile_identity_on_plain_lines (lines : list (list ascii)) :
  Forall (fun l => l <> []
                   /\ (ReadFile.newline ∉ l)
                   /\ last l <> Some ReadFile.carriage_return
                   /\ N.of_nat (length l) < ReadFile.MaxScanTokenSize) lines ->
  let bytes := concat (map (fun l => l ++ [ReadFile.newline]) lines) in
  ReadFile.readFile (inl bytes) = (bytes, None).
Proof.
  intros H. cbn zeta. unfold ReadFile.readFile.
  assert (map ReadFile.dropCR lines = lines) as Hmap.
  { induction H as [|l ls (_ & _ & Hl & _) _ IH]; [done|].
    simpl. by rewrite dropCR_id, IH. }
  assert (Split (concat (map (fun l => l ++ [ReadFile.newline]) lines))
            ReadFile.newline = lines ++ [[]]) as Hsplit.
  { apply Split_joined. eapply Forall_impl; [exact H|].
    by intros l (_ & ? & _). }
  rewrite readFile_short_lines.
  - rewrite Hsplit, map_app, Hmap. simpl.
    change (ReadFile.dropCR []) with (@nil ascii).
    rewrite join_nonempty_all; [done|].
    eapply Forall_impl; [exact H|]. by intros l (? & _).
  - unfold ReadFile.short_lines. rewrite Hsplit.
    apply Forall_app. split.
    + eapply Forall_impl; [exact H|]. by intros l (_ & _ & _ & ?).
    + constructor; [|by constructor].
      unfold ReadFile.MaxScanTokenSize. simpl. lia.
Qed.

(** Witness of X5: the two lines [KEY=1] and [b]. *)
Lemma X5_readFile_identity_on_plain_lines_witness :
  let bytes :=
    concat (map (fun l => l ++ [ReadFile.newline]) Witnesses.plain_lines) in
  ReadFile.readFile (inl bytes) = (bytes, None).
Proof.
  apply (X5_readFile_identity_on_plain_lines Witnesses.plain_lines).
  unfold Witnesses.plain_lines, ReadFile.MaxScanTokenSize.
  repeat constructor; try discriminate; try (simpl; lia);
    intros H; repeat (apply elem_of_cons in H as [H|H]; [discriminate H|]);
    by apply elem_of_nil in H.
Defined.

(** ** The directory walk and the layers of an image *)

Section ScanMore.
Import Scan Prefilter.

Context {SecretFound : Type}.
Variable X : @Externals SecretFound.
Variable opts : Options.

Implicit Types st : @walkState SecretFound.

Lemma existsb_false {A : Type} (f : A -> bool) (l : list A) :
  existsb f l = false -> Forall (fun x => f x = false) l.
Proof.
  induction l as [|x l IH]; simpl; [by constructor|].
  intros H. apply orb_false_iff in H as [Hx Hl].
  constructor; [done | by apply IH].
Qed.

(** A tree without a file to scan leaves the findings as they are. *)
Lemma walkDir_nothing_scannable (sf : surface) (Checkpoint : nat -> bool)
    (layer baseDir : list ascii) (d : DirEntry) :
  has_scannable (umul (MaximumFileSize opts) 1024) d = false ->
  forall path st,
    found (walkDir (walkFn X opts sf Checkpoint layer baseDir) path d st).1
    = found st.
Proof.
  induction d as [name f|name readDirErr entries IH] using DirEntry_tree_ind;
    intros Hd path st.
  - simpl in *. unfold walkFn.
    destruct (Checkpoint (checkpoints st)); [done|].
    destruct (IsRegular f); simpl in *; [|done].
    destruct (Info f) as [size|]; [|done].
    apply negb_false_iff in Hd. by rewrite Hd.
  - simpl in Hd. apply existsb_false in Hd.
    assert (Forall (fun d => forall path st,
              found (walkDir (walkFn X opts sf Checkpoint layer baseDir)
                       path d st).1 = found st) entries) as Hall.
    { apply Forall_forall. intros d Hin p s.
      apply (proj1 (Forall_forall _ _) IH d Hin).
      by apply (proj1 (Forall_forall _ _) Hd d Hin). }
    clear IH Hd.
    assert (forall s,
      found
        ((fix loop (ds : list DirEntry) (s : walkState)
            : walkState * option error :=
            match ds with
            | [] => (s, None)
            | d1 :: rest =>
                match walkDir (walkFn X opts sf Checkpoint layer baseDir)
                        (Filepath.Join2 path (entry_Name d1)) d1 s with
                | (s', Some e) =>
                    if bool_decide (e = SkipDir) then (s', None) else (s', Some e)
                | (s', None) => loop rest s'
                end
            end) entries s).1 = found s) as Hloop.
    { induction Hall as [|d1 rest Hd1 _ IHrest]; intros s; [done|].
      specialize (Hd1 (Filepath.Join2 path (entry_Name d1)) s).
      destruct (walkDir _ _ d1 s) as [s' [e|]]; simpl in Hd1.
      - by case_bool_decide.
      - by rewrite IHrest. }
    simpl. unfold walkFn at 1.
    destruct (Checkpoint (checkpoints st)); [done|].
    destruct (IsSkippableDir X _ _); [done|].
    destruct readDirErr as [msg|]; [done|].
    by rewrite Hloop.
Qed.

Local Abbreviation below_counter :=
  (@Prefilter.below_counter SecretFound opts).
Local Abbreviation below_cap := (@Prefilter.below_cap SecretFound opts).

Lemma walkFn_counting (sf : surface) (Checkpoint : nat -> bool)
    (layer baseDir : list ascii) path f err st :
  counting_matchers X opts ->
  below_counter st ->
  walk_post below_counter below_cap
    (walkFn X opts sf Checkpoint layer baseDir path f err st).
Proof.
  intros [Hpat Hsimple] [Hlen Hle].
  assert (forall s e, below_counter s -> below_cap s e) as Hcap.
  { intros s e [? ?]. unfold below_cap. lia. }
  unfold walkFn.
  destruct err as [e|].
  { unfold walk_post. simpl. case_bool_decide; [done|]. by apply Hcap. }
  destruct (Checkpoint (checkpoints st)).
  { unfold walk_post. simpl. by apply (Hcap _ ErrCheckpoint). }
  destruct f as [[name fnode|name rd entries]|]; [| |done].
  2: { destruct (IsSkippableDir X _ _); done. }
  destruct (negb (IsRegular fnode)); [done|].
  destruct (Info fnode) as [size|]; [|done].
  destruct (_ || _); [done|].
  set (file := NewMatchFile X path).
  set (relPath := match Rel X (Filepath.Join2 baseDir layer) (Path file) with
                  | inl r => r
                  | inr _ => Path file
                  end).
  cbn [numSecrets matchedRuleSet].
  assert (exists secrets err n1 m1,
            scanFile X (Bytes fnode) relPath (Filename file) (Extension file)
              layer (numSecrets st) (matchedRuleSet st)
            = ((secrets, err), (n1, m1))
            /\ N.of_nat (length (found st)
                         + match err with
                           | Some _ => 0
                           | None => length secrets
                           end) <= n1
            /\ n1 <= MaxSecrets opts) as (secrets & err1 & n1 & m1 & -> & Hn1 & Hle1).
  { unfold scanFile.
    destruct (ReadFile.readFile (Bytes fnode)) as [contents_ [rerr|]].
    - exists [], (Some rerr), (numSecrets st), (matchedRuleSet st).
      split; [done|]. split; [lia | done].
    - specialize (Hpat contents_ relPath (Filename file) (Extension file)
                    layer (numSecrets st) (matchedRuleSet st) Hle).
      destruct (MatchPatternSignatures X _ _ _ _ _ _ _)
        as [[secrets [merr|]] [n1 m1]]; simpl in Hpat;
        destruct Hpat as [Hn1 Hle1].
      + exists [], (Some merr), n1, m1. split; [done|]. split; [lia | done].
      + exists secrets, None, n1, m1. split; [done|]. split; [lia | done]. }
  specialize (Hsimple relPath (Filename file) (Extension file) layer n1 Hle1).
  destruct (MatchSimpleSignatures X _ _ _ _ _) as [secrets2 n2].
  simpl in Hsimple. destruct Hsimple as [Hn2 Hle2].
  destruct (MaxSecrets opts <=? n2);
    unfold walk_post, below_cap, below_counter;
    destruct err1; simpl in *;
    rewrite !emit_app, !length_app; simpl; try split; lia.
Qed.

(** When the scan is stopped from the start, the layers add nothing. *)
Lemma processImageLayers_loop_stopped (world : nat -> layerWorld)
    (imageManifestPath extractPath : list ascii)
    (layerIDs layerPaths : list (list ascii)) (todo : list nat)
    (imageScan : Image.ImageScan) (acc : list SecretFound) :
  (forall i, checkpoint (world i) 0%nat = true) ->
  match processImageLayers_loop X opts world imageManifestPath extractPath
          layerIDs layerPaths todo imageScan acc with
  | Returns (_, (found, _)) => found = acc
  | Panics => True
  end
  /\ match processImageLayersStream_loop X opts world imageManifestPath
             extractPath layerIDs layerPaths todo imageScan acc with
     | Returns (_, res) => res = acc
     | Panics => True
     end.
Proof.
  intros Hstop. revert imageScan acc.
  induction todo as [|i todo IH]; intros imageScan acc; simpl; [done|].
  destruct (layerPaths !! i) as [layerPath|]; [|done].
  destruct (layerIDs !! i) as [layerID|]; [|done].
  rewrite (ScanSecretsInDir_stopped X opts _ _ _ _ _ (Hstop i)).
  simpl. rewrite app_nil_r.
  destruct (createDirErr (world i)).
  { split; [done|]. apply IH. }
  split.
  - destruct (MaxSecrets opts <=? _); [done|]. apply IH.
  - destruct (extractErr (world i)); [apply IH|].
    destruct (MaxSecrets opts <=? _); [done|]. apply IH.
Qed.

Lemma uadd_uadd (a b c : N) : uadd (uadd a b) c = uadd a (b + c).
Proof.
  unfold uadd. rewrite N.Div0.add_mod_idemp_l. f_equal. lia.
Qed.

Lemma uadd_lt (a b : N) : uadd a b < uint_size.
Proof. unfold uadd. apply N.mod_lt. done. Qed.

(** The counter of the image scan is raised by the number of findings
    that the layers add. *)
Lemma processImageLayers_loop_counts (world : nat -> layerWorld)
    (imageManifestPath extractPath : list ascii)
    (layerIDs layerPaths : list (list ascii)) (todo : list nat)
    (imageScan : Image.ImageScan) (acc : list SecretFound) :
  Image.numSecrets imageScan < uint_size ->
  match processImageLayers_loop X opts world imageManifestPath extractPath
          layerIDs layerPaths todo imageScan acc with
  | Returns (imageScan', (found, _)) =>
      exists new, found = acc ++ new
        /\ Image.numSecrets imageScan'
           = uadd (Image.numSecrets imageScan) (N.of_nat (length new))
  | Panics => True
  end
  /\ match processImageLayersStream_loop X opts world imageManifestPath
             extractPath layerIDs layerPaths todo imageScan acc with
     | Returns (imageScan', res) =>
         exists new, res = acc ++ new
           /\ Image.numSecrets imageScan'
              = uadd (Image.numSecrets imageScan) (N.of_nat (length new))
     | Panics => True
     end.
Proof.
  assert (forall (imageScan : Image.ImageScan) (acc : list SecretFound),
            Image.numSecrets imageScan < uint_size ->
            exists new : list SecretFound,
              acc = acc ++ new
              /\ Image.numSecrets imageScan
                 = uadd (Image.numSecrets imageScan) (N.of_nat (length new)))
    as Hhere.
  { intros img l Hlt. exists []. rewrite app_nil_r. split; [done|].
    unfold uadd. simpl. rewrite N.add_0_r. symmetry. by apply N.mod_small. }
  revert imageScan acc.
  induction todo as [|i todo IH]; intros imageScan acc Hlt; simpl.
  { split; by apply Hhere. }
  destruct (layerPaths !! i) as [layerPath|]; [|done].
  destruct (layerIDs !! i) as [layerID|]; [|done].
  destruct (ScanSecretsInDir X opts _ _ _ _ _) as [secrets err] eqn:Hscan.
  assert (err = None) as ->.
  { pose proof (ScanSecretsInDir_nil_error X opts (checkpoint (world i))
                  layerID extractPath (Filepath.Join2 extractPath layerID)
                  (targetRoot (world i))) as Hnil.
    by rewrite Hscan in Hnil. }
  change (fold_left (fun res s => res ++ [s]) secrets acc)
    with (emit Stream acc secrets).
  rewrite emit_app.
  set (imageScan1 := set_numSecrets imageScan
                       (uadd (Image.numSecrets imageScan)
                             (N.of_nat (length secrets)))).
  assert (Image.numSecrets imageScan1 < uint_size) as Hlt1
    by apply uadd_lt.
  assert (forall imageScan' (found : list SecretFound),
            (exists new, found = (acc ++ secrets) ++ new
               /\ Image.numSecrets imageScan'
                  = uadd (Image.numSecrets imageScan1)
                      (N.of_nat (length new))) ->
            exists new, found = acc ++ new
               /\ Image.numSecrets imageScan'
                  = uadd (Image.numSecrets imageScan)
                      (N.of_nat (length new))) as Hstep.
  { intros imageScan' found (new & -> & Hn).
    exists (secrets ++ new). split; [by rewrite app_assoc|].
    rewrite Hn. unfold imageScan1. simpl.
    rewrite uadd_uadd, length_app. f_equal. lia. }
  destruct (IH imageScan1 (acc ++ secrets) Hlt1) as [IHb IHs].
  destruct (IH imageScan acc Hlt) as [_ IHskip].
  destruct (createDirErr (world i)).
  { split; [by apply Hhere | done]. }
  split.
  - destruct (MaxSecrets opts <=? _).
    + by apply Hstep, Hhere.
    + destruct (processImageLayers_loop _ _ _ _ _ _ _ _ _ _)
        as [[imageScan' [found err]]|]; [|done]. by apply Hstep.
  - destruct (extractErr (world i)); [done|].
    destruct (MaxSecrets opts <=? _).
    + by apply Hstep, Hhere.
    + destruct (processImageLayersStream_loop _ _ _ _ _ _ _ _ _ _)
        as [[imageScan' res]|]; [|done]. by apply Hstep.
Qed.

End ScanMore.

(** X6: on every directory, for every scan context and whatever the
    matchers do, [ScanSecretsInDirStream] sends on its channel exactly the
    findings that [ScanSecretsInDir] returns, in the same order. *)
Theorem X6_directory_stream_sends_what_batch_returns {SecretFound : Type}
    (X : @Scan.Externals SecretFound) (opts : Scan.Options)
    (Checkpoint : nat -> bool) (layer baseDir fullDir : list ascii)
    (root : Scan.DirEntry + string) :
  Scan.ScanSecretsInDirStream X opts Checkpoint layer baseDir fullDir root
  = (Some (Scan.ScanSecretsInDir X opts Checkpoint layer baseDir fullDir
             root).1, None).
Proof. apply ScanSecretsInDirStream_batch. Qed.

(** X7: when no layer fails in [core.CreateRecursiveDir] or in
    [extractTarFile], [processImageLayersStream] sends exactly the findings
    that [processImageLayers] returns, leaves the same counter in the
    image scan, and panics exactly when it does. *)
Theorem X7_image_stream_sends_what_batch_returns {SecretFound : Type}
    (X : @Scan.Externals SecretFound) (opts : Scan.Options)
    (world : nat -> Scan.layerWorld) (imageScan : Image.ImageScan)
    (imageManifestPath : list ascii) :
  (forall i, Scan.createDirErr (world i) = None) ->
  (forall i, Scan.extractErr (world i) = None) ->
  Scan.processImageLayersStream X opts world imageScan imageManifestPath
  = match Scan.processImageLayers X opts world imageScan imageManifestPath
    with
    | Scan.Returns (imageScan', (found, _)) =>
        Scan.Returns (imageScan', (Some found, None))
    | Scan.Panics => Scan.Panics
    end.
Proof. intros H1 H2. by apply processImageLayersStream_batch. Qed.

(** Witness of X7: the image of two layers. *)
Lemma X7_image_stream_sends_what_batch_returns_witness :
  let opts := Examples.options 1000 in
  let X := Examples.plain opts Examples.catalog2 in
  Scan.processImageLayersStream X opts Examples.two_layers
    Examples.two_layer_image (str "/tmp/t")
  = match Scan.processImageLayers X opts Examples.two_layers
            Examples.two_layer_image (str "/tmp/t") with
    | Scan.Returns (imageScan', (found, _)) =>
        Scan.Returns (imageScan', (Some found, None))
    | Scan.Panics => Scan.Panics
    end.
Proof.
  cbn zeta. apply X7_image_stream_sends_what_batch_returns; intros i; reflexivity.
Defined.

(** X8: a tree in which no file is regular, has readable info and a size
    of at most [maximum-file-size * 1024] (the product taken in [uint])
    yields no finding, on either surface, for every scan context and
    whatever the matchers would report. *)
Theorem X8_no_scannable_file_no_finding {SecretFound : Type}
    (X : @Scan.Externals SecretFound) (opts : Scan.Options)
    (Checkpoint : nat -> bool) (layer baseDir fullDir : list ascii)
    (d : Scan.DirEntry) :
  Prefilter.has_scannable (Scan.umul (Scan.MaximumFileSize opts) 1024) d
  = false ->
  Scan.ScanSecretsInDir X opts Checkpoint layer baseDir fullDir (inl d)
  = ([], None)
  /\ Scan.ScanSecretsInDirStream X opts Checkpoint layer baseDir fullDir
       (inl d) = (Some [], None).
Proof.
  intros H.
  unfold Scan.ScanSecretsInDirStream, Scan.ScanSecretsInDir, Scan.scanWalk,
    Scan.WalkDir.
  pose proof (walkDir_nothing_scannable X opts Scan.Batch Checkpoint layer
                baseDir d H fullDir Scan.walkState_init) as Hb.
  pose proof (walkDir_nothing_scannable X opts Scan.Stream Checkpoint layer
                baseDir d H fullDir Scan.walkState_init) as Hs.
  destruct (Scan.walkDir (Scan.walkFn X opts Scan.Batch _ _ _) _ _ _)
    as [stb eb].
  destruct (Scan.walkDir (Scan.walkFn X opts Scan.Stream _ _ _) _ _ _)
    as [sts es].
  simpl in *. by rewrite Hb, Hs.
Qed.

(** Witness of X8: under a cap of 1 KB, a tree with a symbolic link, a
    file of 2000 bytes and a file whose info cannot be read. *)
Lemma X8_no_scannable_file_no_finding_witness :
  let opts := Witnesses.options_1KB in
  let X := Examples.plain opts Examples.catalog1 in
  Scan.ScanSecretsInDir X opts Examples.never [] (str "/r") (str "/r")
    (inl Witnesses.nothing_to_scan) = ([], None)
  /\ Scan.ScanSecretsInDirStream X opts Examples.never [] (str "/r")
       (str "/r") (inl Witnesses.nothing_to_scan) = (Some [], None).
Proof.
  cbn zeta. apply X8_no_scannable_file_no_finding. reflexivity.
Defined.

(** X9: with matchers that count what they return and stay within the
    cap, one directory walk returns (and streams) at most [max-secrets]
    findings: the driver checks the counter only between files, so the
    bound within a file is the matchers'. *)
Theorem X9_walk_within_cap_with_counting_matchers {SecretFound : Type}
    (X : @Scan.Externals SecretFound) (opts : Scan.Options)
    (Checkpoint : nat -> bool) (layer baseDir fullDir : list ascii)
    (root : Scan.DirEntry + string) :
  Prefilter.counting_matchers X opts ->
  N.of_nat (length (Scan.ScanSecretsInDir X opts Checkpoint layer baseDir
                      fullDir root).1) <= Scan.MaxSecrets opts
  /\ exists res,
       Scan.ScanSecretsInDirStream X opts Checkpoint layer baseDir fullDir
         root = (Some res, None)
       /\ N.of_nat (length res) <= Scan.MaxSecrets opts.
Proof.
  intros HX.
  assert (forall sf,
            N.of_nat (length (Scan.found
                       (Scan.scanWalk X opts sf Checkpoint layer baseDir
                          fullDir root).1)) <= Scan.MaxSecrets opts) as H.
  { intros sf. unfold Scan.scanWalk.
    assert (Prefilter.below_counter opts (@Scan.walkState_init SecretFound))
      as H0 by (split; simpl; lia).
    pose proof (WalkDir_post (Scan.walkFn X opts sf Checkpoint layer baseDir)
                  (Prefilter.below_counter opts) (Prefilter.below_cap opts)
                  (fun path f err st =>
                     walkFn_counting X opts sf Checkpoint layer baseDir
                       path f err st HX)
                  fullDir root Scan.walkState_init H0) as Hpost.
    destruct (Scan.WalkDir _ _ _ _) as [st' [e|]]; simpl.
    - exact Hpost.
    - destruct Hpost as [? ?]. lia. }
  pose proof (H Scan.Batch) as Hb. pose proof (H Scan.Stream) as Hs.
  unfold Scan.ScanSecretsInDir, Scan.ScanSecretsInDirStream.
  destruct (Scan.scanWalk X opts Scan.Batch _ _ _ _ _) as [stb eb].
  destruct (Scan.scanWalk X opts Scan.Stream _ _ _ _ _) as [sts es].
  simpl in *. split; [done|]. by exists (Scan.found sts).
Qed.

(** Witness of X9: the matchers of the examples under a cap of 2, on the
    directory with the files [a] and [b]. *)
Lemma X9_walk_within_cap_with_counting_matchers_witness :
  let opts := Examples.options 2 in
  let X := Examples.plain opts Examples.catalog2 in
  let root := Examples.root [Examples.file_a; Examples.file_b] in
  N.of_nat (length (Scan.ScanSecretsInDir X opts Examples.never []
                      (str "/r") (str "/r") root).1) <= 2
  /\ exists res,
       Scan.ScanSecretsInDirStream X opts Examples.never [] (str "/r")
         (str "/r") root = (Some res, None)
       /\ N.of_nat (length res) <= 2.
Proof.
  cbn zeta.
  apply (X9_walk_within_cap_with_counting_matchers
           (Examples.plain (Examples.options 2) Examples.catalog2)
           (Examples.options 2)).
  assert (Scan.MaxSecrets (Examples.options 2) < Scan.uint_size) as Hmax
    by reflexivity.
  split.
  - intros contents relPath fileName ext layer n m Hn.
    destruct (MatchPatternSignatures_cap (Examples.options 2)
                Examples.catalog2 Hmax contents relPath fileName ext layer
                n m Hn) as (new & n' & m' & Heq & Hn' & Hle).
    cbn zeta. unfold Examples.plain. simpl Scan.MatchPatternSignatures.
    rewrite Heq. simpl. split; assumption.
  - intros relPath fileName ext layer n Hn.
    destruct (MatchSimpleSignatures_cap (Examples.options 2)
                Examples.catalog2 Hmax relPath fileName ext layer n Hn)
      as (new & n' & Heq & Hn' & Hle).
    cbn zeta. unfold Examples.plain. simpl Scan.MatchSimpleSignatures.
    rewrite Heq. simpl. split; assumption.
Defined.

(** X10: when the scan context is stopped before the layers are
    processed, so that the first [Checkpoint] of every layer's walk
    returns an error, an image scan yields no finding on either surface
    (all layers are still created and extracted). *)
Theorem X10_stopped_image_scan_finds_nothing {SecretFound : Type}
    (X : @Scan.Externals SecretFound) (opts : Scan.Options)
    (world : nat -> Scan.layerWorld) (imageScan : Image.ImageScan)
    (imageManifestPath : list ascii) :
  (forall i, Scan.checkpoint (world i) 0%nat = true) ->
  match Scan.processImageLayers X opts world imageScan imageManifestPath with
  | Scan.Returns (_, (found, _)) => found = []
  | Scan.Panics => True
  end
  /\ match Scan.processImageLayersStream X opts world imageScan
             imageManifestPath with
     | Scan.Returns (_, (res, err)) => res = Some [] /\ err = None
     | Scan.Panics => True
     end.
Proof.
  intros Hstop.
  unfold Scan.processImageLayers, Scan.processImageLayersStream.
  destruct (processImageLayers_loop_stopped X opts world imageManifestPath
              (Filepath.Join2 imageManifestPath Scan.ExtractedImageFilesDir)
              (LayerIds (Image.imageManifest imageScan))
              (Layers (Image.imageManifest imageScan))
              (seq 0 (length (Layers (Image.imageManifest imageScan))))
              imageScan [] Hstop) as [Hb Hs].
  split; [exact Hb|].
  destruct (Scan.processImageLayersStream_loop _ _ _ _ _ _ _ _ _ _)
    as [[imageScan' res]|]; [|done].
  by subst res.
Qed.

(** Witness of X10: the image of two layers with a stopped context. *)
Lemma X10_stopped_image_scan_finds_nothing_witness :
  let opts := Examples.options 1000 in
  let X := Examples.plain opts Examples.catalog2 in
  match Scan.processImageLayers X opts Witnesses.cancelled_layers
          Examples.two_layer_image (str "/tmp/t") with
  | Scan.Returns (_, (found, _)) => found = []
  | Scan.Panics => True
  end
  /\ match Scan.processImageLayersStream X opts Witnesses.cancelled_layers
             Examples.two_layer_image (str "/tmp/t") with
     | Scan.Returns (_, (res, err)) => res = Some [] /\ err = None
     | Scan.Panics => True
     end.
Proof.
  cbn zeta. apply X10_stopped_image_scan_finds_nothing.
  intros i. reflexivity.
Defined.

(** X11: [imageScan.numSecrets] counts the findings of the image scan:
    started below [2^64], after [processImageLayers] (or the goroutine of
    [processImageLayersStream]) it is the start value plus the number of
    findings returned (sent), modulo [2^64]. *)
Theorem X11_image_counter_counts_findings {SecretFound : Type}
    (X : @Scan.Externals SecretFound) (opts : Scan.Options)
    (world : nat -> Scan.layerWorld) (imageScan : Image.ImageScan)
    (imageManifestPath : list ascii) :
  Image.numSecrets imageScan < Scan.uint_size ->
  match Scan.processImageLayers X opts world imageScan imageManifestPath with
  | Scan.Returns (imageScan', (found, _)) =>
      Image.numSecrets imageScan'
      = (Image.numSecrets imageScan + N.of_nat (length found))
          mod Scan.uint_size
  | Scan.Panics => True
  end
  /\ match Scan.processImageLayersStream X opts world imageScan
             imageManifestPath with
     | Scan.Returns (imageScan', (Some res, _)) =>
         Image.numSecrets imageScan'
         = (Image.numSecrets imageScan + N.of_nat (length res))
             mod Scan.uint_size
     | _ => True
     end.
Proof.
  intros Hlt.
  unfold Scan.processImageLayers, Scan.processImageLayersStream.
  destruct (processImageLayers_loop_counts X opts world imageManifestPath
              (Filepath.Join2 imageManifestPath Scan.ExtractedImageFilesDir)
              (LayerIds (Image.imageManifest imageScan))
              (Layers (Image.imageManifest imageScan))
              (seq 0 (length (Layers (Image.imageManifest imageScan))))
              imageScan [] Hlt) as [Hb Hs].
  split.
  - destruct (Scan.processImageLayers_loop _ _ _ _ _ _ _ _ _ _)
      as [[imageScan' [found err]]|]; [|done].
    by destruct Hb as (new & -> & ->).
  - destruct (Scan.processImageLayersStream_loop _ _ _ _ _ _ _ _ _ _)
      as [[imageScan' res]|]; [|done].
    by destruct Hs as (new & -> & ->).
Qed.

(** Witness of X11: the image of two layers, counted from zero. *)
Lemma X11_image_counter_counts_findings_witness :
  let opts := Examples.options 1000 in
  let X := Examples.plain opts Examples.catalog2 in
  match Scan.processImageLayers X opts Examples.two_layers
          Examples.two_layer_image (str "/tmp/t") with
  | Scan.Returns (imageScan', (found, _)) =>
      Image.numSecrets imageScan'
      = (Image.numSecrets Examples.two_layer_image + N.of_nat (length found))
          mod Scan.uint_size
  | Scan.Panics => True
  end
  /\ match Scan.processImageLayersStream X opts Examples.two_layers
             Examples.two_layer_image (str "/tmp/t") with
     | Scan.Returns (imageScan', (Some res, _)) =>
         Image.numSecrets imageScan'
         = (Image.numSecrets Examples.two_layer_image
            + N.of_nat (length res)) mod Scan.uint_size
     | _ => True
     end.
Proof.
  cbn zeta. apply X11_image_counter_counts_findings. reflexivity.
Defined.

(** ** The entry points *)

Section EntryFacts.
Import Scan EntryPoints.

Context {SecretFound : Type}.
Variable X : @Externals SecretFound.
Variable opts : Options.

(** With as many layer ids as layer paths, the loops over the layers
    never index out of range. *)
Lemma processImageLayers_loop_returns (world : nat -> layerWorld)
    (imageManifestPath extractPath : list ascii)
    (layerIDs layerPaths : list (list ascii)) (todo : list nat)
    (imageScan : Image.ImageScan) (acc : list SecretFound) :
  length layerIDs = length layerPaths ->
  Forall (fun i => (i < length layerPaths)%nat) todo ->
  (exists r, processImageLayers_loop X opts world imageManifestPath
               extractPath layerIDs layerPaths todo imageScan acc
             = Returns r)
  /\ (exists r, processImageLayersStream_loop X opts world imageManifestPath
                  extractPath layerIDs layerPaths todo imageScan acc
                = Returns r).
Proof.
  intros Hlen Htodo. revert imageScan acc.
  induction Htodo as [|i todo Hi _ IH]; intros imageScan acc; simpl.
  { split; eauto. }
  destruct (lookup_lt_is_Some_2 layerPaths i Hi) as [layerPath ->].
  rewrite <- Hlen in Hi.
  destruct (lookup_lt_is_Some_2 layerIDs i Hi) as [layerID ->].
  destruct (ScanSecretsInDir X opts _ _ _ _ _) as [secrets err].
  destruct (createDirErr (world i)).
  { split; [eauto | apply IH]. }
  split.
  - destruct (MaxSecrets opts <=? _); [eauto | apply IH].
  - destruct (extractErr (world i)); [apply IH|].
    destruct err; [apply IH|].
    destruct (MaxSecrets opts <=? _); [eauto | apply IH].
Qed.

(** After [extractImage] has returned nil, the manifest of the image has
    as many layer ids as layer paths. *)
Lemma extractImage_layer_ids (imageScan imageScan' : Image.ImageScan)
    (saveImage : bool) (saveErr untarErr : option error) (mf : manifestFile) :
  Image.extractImage imageScan saveImage saveErr untarErr mf
  = (imageScan', None) ->
  length (LayerIds (Image.imageManifest imageScan'))
  = length (Layers (Image.imageManifest imageScan'))
  /\ Image.tempDir imageScan' = Image.tempDir imageScan.
Proof.
  unfold Image.extractImage.
  destruct (if saveImage then saveErr else None); [done|].
  destruct untarErr; [done|].
  destruct mf as [e|e|manifest]; simpl; [done|done|].
  destruct (negb (length manifest =? 1)%nat).
  { intros [= <-]. done. }
  destruct manifest as [|m0 rest].
  { intros [= <-]. done. }
  intros [= <-]. simpl. by rewrite deriveLayerIds_map, length_map.
Qed.

Lemma processImageLayers_returns (world : nat -> layerWorld)
    (imageScan : Image.ImageScan) (imageManifestPath : list ascii) :
  length (LayerIds (Image.imageManifest imageScan))
  = length (Layers (Image.imageManifest imageScan)) ->
  (exists r, processImageLayers X opts world imageScan imageManifestPath
             = Returns r)
  /\ (exists imageScan' res,
        processImageLayersStream X opts world imageScan imageManifestPath
        = Returns (imageScan', (Some res, None))).
Proof.
  intros Hlen. unfold processImageLayers, processImageLayersStream.
  destruct (processImageLayers_loop_returns world imageManifestPath
              (Filepath.Join2 imageManifestPath ExtractedImageFilesDir)
              (LayerIds (Image.imageManifest imageScan))
              (Layers (Image.imageManifest imageScan))
              (seq 0 (length (Layers (Image.imageManifest imageScan))))
              imageScan [] Hlen) as [Hb [[imageScan' res] ->]].
  { apply Forall_forall. intros i Hi. apply elem_of_seq in Hi. lia. }
  split; [done|]. by exists imageScan', res.
Qed.

Lemma forward_all (stream : list SecretFound) :
  fold_left (fun res i => res ++ [i]) stream [] = stream.
Proof. apply (emit_app Stream [] stream). Qed.

End EntryFacts.

(** X12: [ExtractAndScanFromTar], [ExtractAndScanImage] and
    [ExtractAndScanImageStream] never fail with an index out of range, and
    return either a result or an error, never both and never neither.  A
    result of [ExtractAndScanFromTar] carries the image id that
    [extractImage] derived and the findings that [processImageLayers]
    returned without error; the channel of [ExtractAndScanImageStream]
    carries what [processImageLayersStream] sent. *)
Theorem X12_image_entry_points_return {SecretFound : Type}
    (X : @Scan.Externals SecretFound) (opts : Scan.Options)
    (w : EntryPoints.imageWorld) (tarFolder imageName image : list ascii) :
  (exists out,
      (EntryPoints.ExtractAndScanFromTar X opts w tarFolder imageName).1
      = Scan.Returns out
      /\ (out.2 = None <-> is_Some out.1)
      /\ forall res, out.1 = Some res ->
           exists imageScan imageScan',
             Image.extractImage
               (EntryPoints.new_ImageScan imageName tarFolder) false
               (EntryPoints.saveErr w) (EntryPoints.untarErr w)
               (EntryPoints.manifest w) = (imageScan, None)
             /\ Scan.processImageLayers X opts (EntryPoints.layers w)
                  imageScan tarFolder
                = Scan.Returns
                    (imageScan', (EntryPoints.Secrets res, None))
             /\ EntryPoints.ImageId res = Image.imageId imageScan)
  /\ (exists out,
        (EntryPoints.ExtractAndScanImage X opts w image).1 = Scan.Returns out
        /\ (out.2 = None <-> is_Some out.1))
  /\ (exists out,
        (EntryPoints.ExtractAndScanImageStream X opts w image).1
        = Scan.Returns out
        /\ (out.2 = None <-> is_Some out.1)
        /\ forall res, out.1 = Some res ->
             exists tempDir imageScan imageScan',
               EntryPoints.GetTmpDir w = inl tempDir
               /\ Image.extractImage
                    (EntryPoints.new_ImageScan image tempDir) true
                    (EntryPoints.saveErr w) (EntryPoints.untarErr w)
                    (EntryPoints.manifest w) = (imageScan, None)
               /\ Scan.processImageLayersStream X opts (EntryPoints.layers w)
                    imageScan tempDir
                  = Scan.Returns (imageScan', (Some res, None))).
Proof.
  assert (forall (imageScan : Image.ImageScan) dir,
            length (LayerIds (Image.imageManifest imageScan))
            = length (Layers (Image.imageManifest imageScan)) ->
            Image.tempDir imageScan = dir ->
            exists out,
              (EntryPoints.scan_result X opts (EntryPoints.layers w)
                 imageScan).1 = Scan.Returns out
              /\ (out.2 = None <-> is_Some out.1)
              /\ forall res, out.1 = Some res ->
                   exists imageScan',
                     Scan.processImageLayers X opts (EntryPoints.layers w)
                       imageScan dir
                     = Scan.Returns
                         (imageScan', (EntryPoints.Secrets res, None))
                     /\ EntryPoints.ImageId res = Image.imageId imageScan')
    as Hscan.
  { intros imageScan dir Hlen <-.
    unfold EntryPoints.scan_result, EntryPoints.scan.
    destruct (processImageLayers_returns X opts (EntryPoints.layers w)
                imageScan (Image.tempDir imageScan) Hlen)
      as [[[imageScan' [found [err|]]] ->] _]; simpl.
    - eexists. split; [done|]. split; [|done].
      split; [done | by intros [? ?]].
    - eexists. split; [done|]. split; [by split; eauto|].
      intros res [= <-]. by exists imageScan'. }
  assert (forall (imageScan imageScan' : Image.ImageScan) b,
            Image.extractImage imageScan b (EntryPoints.saveErr w)
              (EntryPoints.untarErr w) (EntryPoints.manifest w)
            = (imageScan', None) ->
            forall found img'',
              Scan.processImageLayers X opts (EntryPoints.layers w)
                imageScan' (Image.tempDir imageScan)
              = Scan.Returns (img'', (found, None)) ->
              Image.imageId img'' = Image.imageId imageScan') as Hid.
  { intros imageScan imageScan' b _ found img'' Hp.
    unfold Scan.processImageLayers in Hp.
    revert Hp.
    generalize (seq 0 (length (Layers (Image.imageManifest imageScan')))).
    generalize (@nil SecretFound).
    generalize (LayerIds (Image.imageManifest imageScan')) at 1.
    generalize (Layers (Image.imageManifest imageScan')) at 1.
    intros layerPaths layerIDs acc todo. revert imageScan' acc.
    induction todo as [|i todo IH]; intros imageScan' acc; simpl.
    { by intros [= <- _]. }
    destruct (layerPaths !! i); [|done].
    destruct (layerIDs !! i); [|done].
    destruct (Scan.ScanSecretsInDir X opts _ _ _ _ _) as [secrets err].
    destruct (Scan.createDirErr _); [done|].
    destruct (Scan.MaxSecrets opts <=? _).
    - by intros [= <- _].
    - intros Hp. by rewrite (IH _ _ Hp). }
  split; [|split].
  - unfold EntryPoints.ExtractAndScanFromTar.
    destruct (Image.extractImage _ _ _ _ _) as [imageScan [err|]] eqn:He.
    { simpl. eexists. split; [done|]. split; [|done].
      split; [done | by intros [? ?]]. }
    destruct (extractImage_layer_ids _ _ _ _ _ _ He) as [Hlen Hdir].
    destruct (Hscan imageScan tarFolder Hlen Hdir) as (out & -> & Hiff & Hres).
    exists out. split; [done|]. split; [done|].
    intros res Hout. destruct (Hres res Hout) as (imageScan' & Hp & Hi).
    exists imageScan, imageScan'. split; [done|]. split; [done|].
    rewrite Hi. by apply (Hid _ _ _ He (EntryPoints.Secrets res)).
  - unfold EntryPoints.ExtractAndScanImage.
    destruct (EntryPoints.GetTmpDir w) as [tempDir|err].
    2: { simpl. eexists. split; [done|].
         split; [done | by intros [? ?]]. }
    destruct (Image.extractImage _ _ _ _ _) as [imageScan [err|]] eqn:He.
    { simpl. eexists. split; [done|].
      split; [done | by intros [? ?]]. }
    destruct (extractImage_layer_ids _ _ _ _ _ _ He) as [Hlen Hdir].
    destruct (Hscan imageScan tempDir Hlen Hdir) as (out & -> & Hiff & _).
    by exists out.
  - unfold EntryPoints.ExtractAndScanImageStream, EntryPoints.scanStream.
    destruct (EntryPoints.GetTmpDir w) as [tempDir|err].
    2: { simpl. eexists. split; [done|]. split; [|done].
         split; [done | by intros [? ?]]. }
    destruct (Image.extractImage _ _ _ _ _) as [imageScan [err|]] eqn:He.
    { simpl. eexists. split; [done|]. split; [|done].
      split; [done | by intros [? ?]]. }
    destruct (extractImage_layer_ids _ _ _ _ _ _ He) as [Hlen Hdir].
    simpl in Hdir. rewrite Hdir.
    destruct (processImageLayers_returns X opts (EntryPoints.layers w)
                imageScan tempDir Hlen) as [_ (imageScan' & res & Hp)].
    rewrite Hp. simpl. rewrite forward_all.
    eexists. split; [done|]. split; [by split; eauto|].
    intros res' [= <-]. by exists tempDir, imageScan, imageScan'.
Qed.

(** X13: the temporary directory.  [ExtractAndScanImageStream] deletes it
    on every way out once [core.GetTmpDir] has succeeded.
    [ExtractAndScanImage] and [ExtractAndScanFromTar] delete it (for the
    latter, the caller's tar folder) when [extractImage] succeeds, through
    [scan], and leave it behind when [extractImage] returns an error. *)
Theorem X13_temporary_directory_deleted {SecretFound : Type}
    (X : @Scan.Externals SecretFound) (opts : Scan.Options)
    (w : EntryPoints.imageWorld) (tarFolder imageName image : list ascii) :
  match EntryPoints.GetTmpDir w with
  | inr err =>
      EntryPoints.ExtractAndScanImageStream X opts w image
      = (Scan.Returns (None, Some err), [])
      /\ EntryPoints.ExtractAndScanImage X opts w image
         = (Scan.Returns (None, Some err), [])
  | inl tempDir =>
      (EntryPoints.ExtractAndScanImageStream X opts w image).2 = [tempDir]
      /\ (EntryPoints.ExtractAndScanImage X opts w image).2
         = match (Image.extractImage
                    (EntryPoints.new_ImageScan image tempDir) true
                    (EntryPoints.saveErr w) (EntryPoints.untarErr w)
                    (EntryPoints.manifest w)).2 with
           | None => [tempDir]
           | Some _ => []
           end
  end
  /\ (EntryPoints.ExtractAndScanFromTar X opts w tarFolder imageName).2
     = match (Image.extractImage
                (EntryPoints.new_ImageScan imageName tarFolder) false
                (EntryPoints.saveErr w) (EntryPoints.untarErr w)
                (EntryPoints.manifest w)).2 with
       | None => [tarFolder]
       | Some _ => []
       end.
Proof.
  assert (forall (imageScan : Image.ImageScan),
            (EntryPoints.scan_result X opts (EntryPoints.layers w)
               imageScan).2 = [Image.tempDir imageScan]) as Hscan.
  { intros imageScan. unfold EntryPoints.scan_result, EntryPoints.scan.
    by destruct (Scan.processImageLayers _ _ _ _ _)
      as [[imageScan' [found [err|]]]|]. }
  split.
  - unfold EntryPoints.ExtractAndScanImageStream,
      EntryPoints.ExtractAndScanImage, EntryPoints.scanStream.
    destruct (EntryPoints.GetTmpDir w) as [tempDir|err]; [|done].
    destruct (Image.extractImage _ _ _ _ _) as [imageScan [err|]] eqn:He;
      [done|].
    destruct (extractImage_layer_ids _ _ _ _ _ _ He) as [Hlen Hdir].
    simpl in Hdir. split.
    + rewrite Hdir.
      destruct (processImageLayers_returns X opts (EntryPoints.layers w)
                  imageScan tempDir Hlen) as [_ (imageScan' & res & ->)].
      done.
    + simpl. by rewrite Hscan, Hdir.
  - unfold EntryPoints.ExtractAndScanFromTar.
    destruct (Image.extractImage _ _ _ _ _) as [imageScan [err|]] eqn:He;
      [done|].
    destruct (extractImage_layer_ids _ _ _ _ _ _ He) as [Hlen Hdir].
    simpl. by rewrite Hscan, Hdir.
Qed.

(** ** [extractImage], the options and the writers *)

(** The entry points on an image of two layers that is saved and extracted
    without error: a result with the finding of each layer, and the
    temporary directory deleted. *)
Example two_layer_world_scanned :
  let opts := Examples.options 10 in
  let X := Examples.plain opts Examples.catalog1 in
  (exists res,
      EntryPoints.ExtractAndScanFromTar X opts Witnesses.two_layer_world
        (str "/tmp/t") (str "img")
      = (Scan.Returns (Some res, None), [str "/tmp/t"])
      /\ length (EntryPoints.Secrets res) = 2%nat)
  /\ (exists found,
        EntryPoints.ExtractAndScanImageStream X opts Witnesses.two_layer_world
          (str "img")
        = (Scan.Returns (Some found, None), [str "/tmp/t"])
        /\ length found = 2%nat).
Proof. split; eexists; (split; [vm_compute; reflexivity|reflexivity]). Qed.

(** X14: [extractImage] resets the counter of the image scan on every way
    out and keeps the image name and the temporary directory.  It returns
    nil exactly when saving (if asked for) and extracting succeed and the
    manifest file opens and decodes, whatever the length of the decoded
    array; when it returns an error, the image id and the manifest of the
    image scan are as before, and a failure to save comes before all
    others. *)
Theorem X14_extractImage_outcomes (imageScan : Image.ImageScan)
    (saveImage : bool) (saveErr untarErr : option error) (mf : manifestFile) :
  let r := Image.extractImage imageScan saveImage saveErr untarErr mf in
  Image.numSecrets r.1 = 0
  /\ Image.imageName r.1 = Image.imageName imageScan
  /\ Image.tempDir r.1 = Image.tempDir imageScan
  /\ (r.2 = None <->
      (saveImage = false \/ saveErr = None) /\ untarErr = None
      /\ exists manifest, mf = Decodes manifest)
  /\ (r.2 <> None ->
      Image.imageId r.1 = Image.imageId imageScan
      /\ Image.imageManifest r.1 = Image.imageManifest imageScan)
  /\ (forall e, saveImage = true -> saveErr = Some e -> r.2 = Some e).
Proof.
  cbn zeta. unfold Image.extractImage.
  destruct saveImage, saveErr as [se|], untarErr as [ue|],
    mf as [e|e|manifest]; simpl;
    try destruct (negb (length manifest =? 1)%nat);
    try destruct manifest as [|m0 rest]; simpl;
    (split; [done|]); (split; [done|]); (split; [done|]);
    (split; [|split; [done || (intros H; by destruct H) | ]]);
    try (intros e0 H1 H2; congruence);
    try (split; [done | intros ([?|?] & ? & ? & ?); congruence]);
    try (split; [intros _; split; [auto|split; [done|eauto]] | done]).
Qed.

Section OptionFacts.
Import CoreOptions.

Lemma flag_Var_appends (v : repeatableStringValue) (args : list (list ascii)) :
  flag_Var v args = ({| values := values v ++ args |}, None).
Proof.
  revert v. induction args as [|s args IH]; intros [vs]; simpl.
  - by rewrite app_nil_r.
  - rewrite IH. simpl. by rewrite <- app_assoc.
Qed.

End OptionFacts.

(** X15: a flag of type [repeatableStringValue] that occurs several times
    keeps every value, in the order given, after the values it held
    before; [Set] never returns an error, and [String] shows the values
    joined by a comma and a space. *)
Theorem X15_repeatable_flag_keeps_all_values
    (v : CoreOptions.repeatableStringValue) (args : list (list ascii)) :
  let r := CoreOptions.flag_Var v args in
  r.2 = None
  /\ CoreOptions.repeatableStringValue_Values r.1
     = CoreOptions.repeatableStringValue_Values v ++ args
  /\ CoreOptions.repeatableStringValue_String r.1
     = Join (CoreOptions.repeatableStringValue_Values v ++ args) (str ", ").
Proof. cbn zeta. rewrite flag_Var_appends. done. Qed.

Section WriterMore.
Import Jobs.


End WriterMore.


(** ** A walk ends at the first error *)

Section WalkStops.
Import Scan Prefilter.

Context {SecretFound : Type}.
Variable X : @Externals SecretFound.
Variable opts : Options.

(** [walkDir] on a directory, with its loop named. *)
Lemma walkDir_Directory fn path name readDirErr entries
    (st : @walkState SecretFound) :
  walkDir fn path (Directory name readDirErr entries) st
  = match fn path (Some (Directory name readDirErr entries)) None st with
    | (st1, Some e) => (st1, after_dir e)
    | (st1, None) =>
        match readDirErr with
        | Some msg =>
            match fn path (Some (Directory name readDirErr entries))
                    (Some (ErrOS msg)) st1 with
            | (st2, Some e) => (st2, after_dir e)
            | (st2, None) => walk_entries fn path entries st2
            end
        | None => walk_entries fn path entries st1
        end
    end.
Proof.
  assert (forall s,
            (fix loop (ds : list DirEntry) (s : walkState)
               : walkState * option error :=
               match ds with
               | [] => (s, None)
               | d1 :: rest =>
                   match walkDir fn (Filepath.Join2 path (entry_Name d1)) d1 s
                   with
                   | (s', Some e) =>
                       if bool_decide (e = SkipDir) then (s', None)
                       else (s', Some e)
                   | (s', None) => loop rest s'
                   end
               end) entries s
            = walk_entries fn path entries s) as Hloop.
  { induction entries as [|d1 rest IH]; intros s; [done|].
    simpl. destruct (walkDir fn _ d1 s) as [s' [e|]]; [done|apply IH]. }
  simpl.
  destruct (fn path _ None st) as [st1 [e1|]]; [done|].
  destruct readDirErr as [msg|]; [|apply Hloop].
  destruct (fn path _ (Some (ErrOS msg)) st1) as [st2 [e2|]]; [done|].
  apply Hloop.
Qed.

Lemma walk_entries_error fn path (es1 es2 : list DirEntry)
    (s s' : @walkState SecretFound) (e : error) :
  walk_entries fn path es1 s = (s', Some e) ->
  walk_entries fn path (es1 ++ es2) s = (s', Some e).
Proof.
  revert s. induction es1 as [|d1 es1 IH]; intros s; simpl; [done|].
  destruct (walkDir fn _ d1 s) as [s1 [e1|]]; [|apply IH].
  by case_bool_decide.
Qed.

(** The callback looks at a directory, not at its entries. *)
Lemma walkFn_Directory (sf : surface) (Checkpoint : nat -> bool)
    (layer baseDir path name : list ascii) (readDirErr : option string)
    (es es' : list DirEntry) err st :
  walkFn X opts sf Checkpoint layer baseDir path
    (Some (Directory name readDirErr es)) err st
  = walkFn X opts sf Checkpoint layer baseDir path
      (Some (Directory name readDirErr es')) err st.
Proof. reflexivity. Qed.

Lemma walkDir_stops (sf : surface) (Checkpoint : nat -> bool)
    (layer baseDir path name : list ascii) (readDirErr : option string)
    (es1 es2 : list DirEntry) st st' (e : error) :
  walkDir (walkFn X opts sf Checkpoint layer baseDir) path
    (Directory name readDirErr es1) st = (st', Some e) ->
  walkDir (walkFn X opts sf Checkpoint layer baseDir) path
    (Directory name readDirErr (es1 ++ es2)) st = (st', Some e).
Proof.
  rewrite !walkDir_Directory.
  rewrite (walkFn_Directory sf Checkpoint layer baseDir path name readDirErr
             (es1 ++ es2) es1 None st).
  destruct (walkFn X opts sf Checkpoint layer baseDir path
              (Some (Directory name readDirErr es1)) None st)
    as [st1 [e1|]]; [done|].
  destruct readDirErr as [msg|].
  - rewrite (walkFn_Directory sf Checkpoint layer baseDir path name (Some msg)
               (es1 ++ es2) es1 (Some (ErrOS msg)) st1).
    destruct (walkFn X opts sf Checkpoint layer baseDir path
                (Some (Directory name (Some msg) es1)) (Some (ErrOS msg)) st1)
      as [st2 [e2|]]; [done|]. apply walk_entries_error.
  - apply walk_entries_error.
Qed.

End WalkStops.

(** X17: a walk ends at the first error.  When the walk of a directory
    ends with an error (the cap is reached, the scan is stopped, or the
    directory cannot be read), entries that come later in the directory
    are never visited: with more entries after those walked, both
    surfaces give the same findings. *)
Theorem X17_walk_ends_at_first_error {SecretFound : Type}
    (X : @Scan.Externals SecretFound) (opts : Scan.Options)
    (Checkpoint : nat -> bool) (layer baseDir fullDir name : list ascii)
    (readDirErr : option string) (es1 es2 : list Scan.DirEntry) :
  (Scan.scanWalk X opts Scan.Batch Checkpoint layer baseDir fullDir
     (inl (Scan.Directory name readDirErr es1))).2 <> None ->
  Scan.ScanSecretsInDir X opts Checkpoint layer baseDir fullDir
    (inl (Scan.Directory name readDirErr (es1 ++ es2)))
  = Scan.ScanSecretsInDir X opts Checkpoint layer baseDir fullDir
      (inl (Scan.Directory name readDirErr es1))
  /\ Scan.ScanSecretsInDirStream X opts Checkpoint layer baseDir fullDir
       (inl (Scan.Directory name readDirErr (es1 ++ es2)))
     = Scan.ScanSecretsInDirStream X opts Checkpoint layer baseDir fullDir
         (inl (Scan.Directory name readDirErr es1)).
Proof.
  intros Herr.
  assert (Scan.scanWalk X opts Scan.Batch Checkpoint layer baseDir fullDir
            (inl (Scan.Directory name readDirErr (es1 ++ es2)))
          = Scan.scanWalk X opts Scan.Batch Checkpoint layer baseDir fullDir
              (inl (Scan.Directory name readDirErr es1))) as Heq.
  { unfold Scan.scanWalk, Scan.WalkDir in *.
    destruct (Scan.walkDir _ fullDir (Scan.Directory name readDirErr es1) _)
      as [st' [e|]] eqn:Hw; [|done].
    by rewrite (walkDir_stops X opts _ _ _ _ _ _ _ _ es2 _ _ _ Hw). }
  unfold Scan.ScanSecretsInDir, Scan.ScanSecretsInDirStream.
  by rewrite !scanWalk_surface, Heq.
Qed.

(** Witness of X17: with [max-secrets = 1] the walk ends after the file
    [a]; the file [b] after it changes nothing. *)
Lemma X17_walk_ends_at_first_error_witness :
  let opts := Examples.options 1 in
  let X := Examples.plain opts Examples.catalog1 in
  let scan es :=
    Scan.ScanSecretsInDir X opts Examples.never [] (str "/r") (str "/r")
      (inl (Scan.Directory (str "r") None es)) in
  scan ([Examples.file_a] ++ [Examples.file_b]) = scan [Examples.file_a].
Proof.
  cbn zeta.
  apply (X17_walk_ends_at_first_error
           (Examples.plain (Examples.options 1) Examples.catalog1)
           (Examples.options 1) Examples.never [] (str "/r") (str "/r")
           (str "r") None [Examples.file_a] [Examples.file_b]).
  vm_compute. discriminate.
Defined.
